(** * Dual-AI orchestrator: the provider client, the agent registry and the
    collaboration loop of the main server, embedded in Rocq.

    The embedding follows the classes [DualAPIClient] and
    [DualAPIOrchestrator] of the server file method by method.  The process
    state (the client's rate-limit windows, the global [metrics] object and
    the orchestrator's [agents] map) is threaded through a state monad in
    which a JavaScript [throw] keeps the mutations made before it.  The
    outside world ([Date.now], [uuidv4], [fetch]) is an oracle indexed by the
    number of calls made so far, so every clock and every provider behaviour
    is covered.  One logical thread of control is modelled: nothing else runs
    while a call is suspended on [await].

    Values are typed as the program uses them: names, prompts, keys and
    message contents are strings, counters and times are integers, and a
    parsed reply is the record of the properties the program reads from it,
    each of which may be absent. *)

From Stdlib Require Import ZArith QArith Lia.
From stdpp Require Import base list strings gmap pretty.

#[local] Set Warnings "-register-all".
Local Open Scope string_scope.
Local Open Scope list_scope.
Local Open Scope Z_scope.

(** ** Values *)

(** The newline character of the template literals. *)
Definition nl : string := String (Ascii.ascii_of_nat 10) EmptyString.

(** JSON text handed to [fetch] as request body, and caller-supplied option
    values. *)
Inductive Json :=
| JNull
| JBool (b : bool)
| JNum (q : Q)
| JStr (s : string)
| JArr (items : list Json)
| JObj (fields : list (string * Json)).

(** A JavaScript object literal keeps one entry per key: writing a key that
    is present replaces its value in place, a new key goes last. *)
Fixpoint obj_set (k : string) (v : Json) (o : list (string * Json))
  : list (string * Json) :=
  match o with
  | [] => [(k, v)]
  | (k', v') :: o' =>
      if decide (k = k') then (k, v) :: o' else (k', v') :: obj_set k v o'
  end.

(** [{...o, ...extra}]: the spread writes the keys of [extra] in order. *)
Definition obj_spread (o extra : list (string * Json)) : list (string * Json) :=
  fold_left (fun acc kv => obj_set kv.1 kv.2 acc) extra o.

Fixpoint obj_get (k : string) (o : list (string * Json)) : option Json :=
  match o with
  | [] => None
  | (k', v) :: o' => if decide (k = k') then Some v else obj_get k o'
  end.

(** Truthiness of a property read: an absent property is [undefined]. *)
Definition truthy (v : option Json) : bool :=
  match v with
  | None | Some JNull => false
  | Some (JBool b) => b
  | Some (JNum q) => negb (Qnum q =? 0)
  | Some (JStr s) => negb (bool_decide (s = ""))
  | Some (JArr _) | Some (JObj _) => true
  end.

(** [v || d] on a property read. *)
Definition js_or (v : option Json) (d : Json) : Json :=
  match v with
  | Some x => if truthy v then x else d
  | None => d
  end.

(** [s || d] where [s] is a string or [undefined]. *)
Definition str_or (s : option string) (d : string) : string :=
  match s with
  | Some x => if decide (x = "") then d else x
  | None => d
  end.

(** [Array.prototype.slice(start)] with one argument: a negative [start]
    counts from the end and is clamped at the beginning. *)
Definition slice {A} (start : Z) (l : list A) : list A :=
  let len := Z.of_nat (length l) in
  let k := if start <? 0 then Z.max (len + start) 0 else Z.min start len in
  drop (Z.to_nat k) l.

(** [Array.prototype.join]. *)
Fixpoint join (sep : string) (l : list string) : string :=
  match l with
  | [] => ""
  | [x] => x
  | x :: l' => x +:+ sep +:+ join sep l'
  end.

(** A chat message.  An entry of a message array may also be [undefined]
    (see [executeAgent]), which is [None] here. *)
Record Message := { msg_role : string; msg_content : string }.

Definition Entry : Type := option Message.

Definition entry_json (m : Entry) : Json :=
  match m with
  | Some m => JObj [("role", JStr (msg_role m)); ("content", JStr (msg_content m))]
  | None => JNull
  end.

(** Token counters of a reply; [None] when the reply has no [usage]. *)
Definition Usage : Type := option (list (string * Z)).

(** What the program reads of a parsed reply body: [choices[0].message] and
    [usage] of the OpenAI shape, [content[0].text] and [usage] of the
    Anthropic shape.  An absent property is [None]. *)
Record Choice := { ch_message : option Message }.
Record ContentBlock := { cb_text : string }.
Record ReplyJson := {
  rj_choices : option (list Choice);
  rj_content : option (list ContentBlock);
  rj_usage : Usage
}.

Inductive JsError := Error (message : string).

Definition error_message (e : JsError) : string :=
  match e with Error m => m end.

Record Request := {
  req_url : string;
  req_headers : list (string * string);
  req_body : Json
}.

Record Response := {
  resp_ok : bool;
  resp_status : Z;
  resp_statusText : string;
  resp_json : JsError + ReplyJson   (* [response.json()] rejects or resolves *)
}.

Inductive FetchResult :=
| Rejected (e : JsError)
| Resolved (r : Response).

(** ** Process state *)

(** One entry of [this.rateLimits]. *)
Record RateLimit := { requests : Z; resetTime : Z; limit : Z }.

Record RateLimits := { rl_openai : RateLimit; rl_anthropic : RateLimit }.

(** The global [metrics] object. *)
Record Metrics := {
  startTime : Z;
  m_requests : Z;
  openaiRequests : Z;
  anthropicRequests : Z;
  errors : Z;
  activeSessions : Z;
  totalSessions : Z
}.

Record Agent := {
  ag_id : string;
  ag_name : string;
  ag_role : string;
  ag_provider : string;
  ag_model : string;
  ag_instructions : string;
  ag_memory : list Entry;
  ag_created : Z
}.

Record Proc := {
  openaiKey : option string;       (* process.env.OPENAI_API_KEY *)
  anthropicKey : option string;    (* process.env.ANTHROPIC_API_KEY *)
  rateLimits : RateLimits;
  metrics : Metrics;
  agents : gmap string Agent;
  nowCalls : nat;                  (* calls of Date.now() so far *)
  uuidCalls : nat;                 (* calls of uuidv4() so far *)
  sent : list Request              (* requests handed to fetch() so far *)
}.

(** The outside world: the value of the [n]-th call of [Date.now] and of
    [uuidv4], and the outcome of the [n]-th call of [fetch] (counted from 0)
    on its request. *)
Record Env := {
  env_now : nat -> Z;
  env_uuid : nat -> string;
  env_fetch : nat -> Request -> FetchResult
}.

Definition set_rateLimits (f : RateLimits -> RateLimits) (s : Proc) : Proc :=
  {| openaiKey := openaiKey s; anthropicKey := anthropicKey s;
     rateLimits := f (rateLimits s); metrics := metrics s; agents := agents s;
     nowCalls := nowCalls s; uuidCalls := uuidCalls s; sent := sent s |}.

Definition set_metrics (f : Metrics -> Metrics) (s : Proc) : Proc :=
  {| openaiKey := openaiKey s; anthropicKey := anthropicKey s;
     rateLimits := rateLimits s; metrics := f (metrics s); agents := agents s;
     nowCalls := nowCalls s; uuidCalls := uuidCalls s; sent := sent s |}.

Definition set_agents (f : gmap string Agent -> gmap string Agent) (s : Proc) : Proc :=
  {| openaiKey := openaiKey s; anthropicKey := anthropicKey s;
     rateLimits := rateLimits s; metrics := metrics s; agents := f (agents s);
     nowCalls := nowCalls s; uuidCalls := uuidCalls s; sent := sent s |}.

(** ** The monad: state, and exceptions that keep the state *)

Inductive Outcome (A : Type) :=
| Return (a : A)
| Throw (e : JsError).
Arguments Return {A} a.
Arguments Throw {A} e.

Definition M (A : Type) : Type := Proc -> Outcome A * Proc.

Definition ret {A} (a : A) : M A := fun s => (Return a, s).

Definition throw {A} (e : JsError) : M A := fun s => (Throw e, s).

Definition bind {A B} (m : M A) (k : A -> M B) : M B :=
  fun s =>
    match m s with
    | (Return a, s') => k a s'
    | (Throw e, s') => (Throw e, s')
    end.

(** [try { m } catch (error) { h error }] *)
Definition try_catch {A} (m : M A) (h : JsError -> M A) : M A :=
  fun s =>
    match m s with
    | (Return a, s') => (Return a, s')
    | (Throw e, s') => h e s'
    end.

Definition gets {A} (f : Proc -> A) : M A := fun s => (Return (f s), s).

Definition modify (f : Proc -> Proc) : M unit := fun s => (Return tt, f s).

Notation "'let!' x ':=' m 'in' k" := (bind m (fun x => k))
  (at level 10, x pattern, m at level 100, k at level 200).
Notation "m '>>' k" := (bind m (fun _ => k))
  (at level 90, right associativity).

(** ** The outside world *)

Section Server.

Variable E : Env.

(** [Date.now()] *)
Definition Date_now : M Z :=
  fun s =>
    (Return (env_now E (nowCalls s)),
     {| openaiKey := openaiKey s; anthropicKey := anthropicKey s;
        rateLimits := rateLimits s; metrics := metrics s; agents := agents s;
        nowCalls := S (nowCalls s); uuidCalls := uuidCalls s;
        sent := sent s |}).

(** [uuidv4()] *)
Definition uuidv4 : M string :=
  fun s =>
    (Return (env_uuid E (uuidCalls s)),
     {| openaiKey := openaiKey s; anthropicKey := anthropicKey s;
        rateLimits := rateLimits s; metrics := metrics s; agents := agents s;
        nowCalls := nowCalls s; uuidCalls := S (uuidCalls s);
        sent := sent s |}).

(** [await fetch(url, init)]: the request goes out, then the promise
    resolves to a response or rejects. *)
Definition fetch (r : Request) : M Response :=
  fun s =>
    let s' :=
      {| openaiKey := openaiKey s; anthropicKey := anthropicKey s;
         rateLimits := rateLimits s; metrics := metrics s; agents := agents s;
         nowCalls := nowCalls s; uuidCalls := uuidCalls s;
         sent := sent s ++ [r] |} in
    match env_fetch E (length (sent s)) r with
    | Resolved resp => (Return resp, s')
    | Rejected e => (Throw e, s')
    end.

(** [await response.json()] *)
Definition response_json (r : Response) : M ReplyJson :=
  match resp_json r with
  | inr v => ret v
  | inl e => throw e
  end.

(** ** DualAPIClient *)

(** [this.rateLimits[provider]]: [undefined] for any other key. *)
Definition rateLimit_of (provider : string) (r : RateLimits) : option RateLimit :=
  if decide (provider = "openai") then Some (rl_openai r)
  else if decide (provider = "anthropic") then Some (rl_anthropic r)
  else None.

(** Assignment through the reference [this.rateLimits[provider]]. *)
Definition update_rateLimit (provider : string) (f : RateLimit -> RateLimit)
    (r : RateLimits) : RateLimits :=
  if decide (provider = "openai") then
    {| rl_openai := f (rl_openai r); rl_anthropic := rl_anthropic r |}
  else if decide (provider = "anthropic") then
    {| rl_openai := rl_openai r; rl_anthropic := f (rl_anthropic r) |}
  else r.

Definition type_error_reading (of_what prop : string) : JsError :=
  Error ("Cannot read properties of " +:+ of_what +:+ " (reading '" +:+ prop +:+ "')").

(** [checkRateLimit(provider)]; [window] is the local constant [limit] of
    the source, a reference to the provider's entry. *)
Definition checkRateLimit (provider : string) : M bool :=
  let! window := gets (fun s => rateLimit_of provider (rateLimits s)) in
  let! now := Date_now in
  match window with
  | None => throw (type_error_reading "undefined" "resetTime")
  | Some l =>
      if resetTime l <? now then
        let! now' := Date_now in
        let l' := {| requests := 0; resetTime := now' + 60000; limit := limit l |} in
        modify (set_rateLimits (update_rateLimit provider (fun _ => l')))
        >> ret (requests l' <? limit l')
      else ret (requests l <? limit l)
  end.

(** [!key] for an environment variable: unset or empty. *)
Definition key_missing (k : option string) : bool :=
  match k with
  | None => true
  | Some k => bool_decide (k = "")
  end.

Definition incr_requests (l : RateLimit) : RateLimit :=
  {| requests := requests l + 1; resetTime := resetTime l; limit := limit l |}.

Definition incr_openaiRequests (m : Metrics) : Metrics :=
  {| startTime := startTime m; m_requests := m_requests m;
     openaiRequests := openaiRequests m + 1;
     anthropicRequests := anthropicRequests m; errors := errors m;
     activeSessions := activeSessions m; totalSessions := totalSessions m |}.

Definition incr_anthropicRequests (m : Metrics) : Metrics :=
  {| startTime := startTime m; m_requests := m_requests m;
     openaiRequests := openaiRequests m;
     anthropicRequests := anthropicRequests m + 1; errors := errors m;
     activeSessions := activeSessions m; totalSessions := totalSessions m |}.

Definition incr_errors (m : Metrics) : Metrics :=
  {| startTime := startTime m; m_requests := m_requests m;
     openaiRequests := openaiRequests m;
     anthropicRequests := anthropicRequests m; errors := errors m + 1;
     activeSessions := activeSessions m; totalSessions := totalSessions m |}.

(** The options object of a call: its own properties in order. *)
Definition Options : Type := list (string * Json).

Definition openai_body (messages : list Entry) (model : string) (options : Options)
  : Json :=
  JObj (obj_spread
    [("model", JStr model);
     ("messages", JArr (map entry_json messages));
     ("temperature", js_or (obj_get "temperature" options) (JNum (7 # 10)));
     ("max_tokens", js_or (obj_get "maxTokens" options) (JNum (2000 # 1)))]
    options).

(** The arguments of [fetch] in [callOpenAI]. *)
Definition openai_request (key : string) (messages : list Entry) (model : string)
    (options : Options) : Request :=
  {| req_url := "https://api.openai.com/v1/chat/completions";
     req_headers := [("Authorization", "Bearer " +:+ key);
                     ("Content-Type", "application/json")];
     req_body := openai_body messages model options |}.

(** [callOpenAI(messages, model, options)] *)
Definition callOpenAI (messages : list Entry) (model : string) (options : Options)
  : M ReplyJson :=
  let! key := gets openaiKey in
  if key_missing key then throw (Error "OpenAI API key not configured") else
  let! allowed := checkRateLimit "openai" in
  if negb allowed then throw (Error "OpenAI rate limit exceeded") else
  modify (set_rateLimits (update_rateLimit "openai" incr_requests)) >>
  modify (set_metrics incr_openaiRequests) >>
  let! response := fetch (openai_request (default "" key) messages model options) in
  if negb (resp_ok response) then
    throw (Error ("OpenAI API error: " +:+ pretty (resp_status response) +:+ " "
                  +:+ resp_statusText response))
  else response_json response.

(** The entries of a message array as the callbacks [m => m.role ...] and
    [m => m.content] see them: reading a property of an [undefined] entry
    throws. *)
Fixpoint defined_entries (ms : list Entry) : M (list Message) :=
  match ms with
  | [] => ret []
  | None :: _ => throw (type_error_reading "undefined" "role")
  | Some m :: ms' => let! r := defined_entries ms' in ret (m :: r)
  end.

Definition anthropic_body (systemMessages conversationMessages : list Message)
    (model : string) (options : Options) : Json :=
  JObj (obj_spread
    [("model", JStr model);
     ("max_tokens", js_or (obj_get "maxTokens" options) (JNum (2000 # 1)));
     ("temperature", js_or (obj_get "temperature" options) (JNum (7 # 10)));
     ("system", JStr (join nl (map msg_content systemMessages)));
     ("messages", JArr (map (fun m => entry_json (Some m)) conversationMessages))]
    options).

(** The arguments of [fetch] in [callAnthropic]. *)
Definition anthropic_request (key : string)
    (systemMessages conversationMessages : list Message) (model : string)
    (options : Options) : Request :=
  {| req_url := "https://api.anthropic.com/v1/messages";
     req_headers := [("x-api-key", key);
                     ("Content-Type", "application/json");
                     ("anthropic-version", "2023-06-01")];
     req_body := anthropic_body systemMessages conversationMessages model options |}.

(** [result.content[0].text] *)
Definition first_text (result : ReplyJson) : M string :=
  match rj_content result with
  | None => throw (type_error_reading "undefined" "0")
  | Some [] => throw (type_error_reading "undefined" "text")
  | Some (b :: _) => ret (cb_text b)
  end.

(** The reply [callAnthropic] returns around the text [t]:
    [{choices: [{message: {role: 'assistant', content: t}}], usage: u}]. *)
Definition normalized (t : string) (u : Usage) : ReplyJson :=
  {| rj_choices :=
       Some [ {| ch_message := Some {| msg_role := "assistant"; msg_content := t |} |} ];
     rj_content := None;
     rj_usage := u |}.

(** [callAnthropic(messages, model, options)] *)
Definition callAnthropic (messages : list Entry) (model : string) (options : Options)
  : M ReplyJson :=
  let! key := gets anthropicKey in
  if key_missing key then throw (Error "Anthropic API key not configured") else
  let! allowed := checkRateLimit "anthropic" in
  if negb allowed then throw (Error "Anthropic rate limit exceeded") else
  modify (set_rateLimits (update_rateLimit "anthropic" incr_requests)) >>
  modify (set_metrics incr_anthropicRequests) >>
  let! ms := defined_entries messages in
  let systemMessages := filter (fun m => msg_role m = "system") ms in
  let conversationMessages := filter (fun m => msg_role m <> "system") ms in
  let! response := fetch
    (anthropic_request (default "" key) systemMessages conversationMessages
       model options) in
  if negb (resp_ok response) then
    throw (Error ("Anthropic API error: " +:+ pretty (resp_status response) +:+ " "
                  +:+ resp_statusText response))
  else
    let! result := response_json response in
    let! text := first_text result in
    ret (normalized text (rj_usage result)).

(** [callAPI(provider, messages, model, options)] *)
Definition callAPI (provider : string) (messages : list Entry) (model : string)
    (options : Options) : M ReplyJson :=
  try_catch
    (if decide (provider = "openai") then callOpenAI messages model options
     else if decide (provider = "anthropic") then callAnthropic messages model options
     else throw (Error ("Unsupported provider: " +:+ provider)))
    (fun error => modify (set_metrics incr_errors) >> throw error).

(** ** DualAPIOrchestrator *)

(** The request body of agent creation: each property is a string or absent. *)
Record Config := {
  cfg_name : option string;
  cfg_role : option string;
  cfg_provider : option string;
  cfg_model : option string;
  cfg_instructions : option string
}.

(** [createAgent(config)] *)
Definition createAgent (config : Config) : M Agent :=
  let! id := uuidv4 in
  let name := str_or (cfg_name config) "Agent" in
  let role := str_or (cfg_role config) "Assistant" in
  let provider := str_or (cfg_provider config) "openai" in
  let model :=
    str_or (cfg_model config)
      (if decide (cfg_provider config = Some "anthropic")
       then "claude-3-5-sonnet-20241022" else "gpt-4") in
  let instructions :=
    str_or (cfg_instructions config) "You are a helpful AI assistant." in
  let! created := Date_now in
  let agent :=
    {| ag_id := id; ag_name := name; ag_role := role; ag_provider := provider;
       ag_model := model; ag_instructions := instructions; ag_memory := [];
       ag_created := created |} in
  modify (set_agents (insert id agent)) >> ret agent.

Record AgentSummary := {
  sum_id : string;
  sum_name : string;
  sum_role : string;
  sum_provider : string
}.

Record ExecResult := {
  res_agent : AgentSummary;
  res_response : string;
  res_usage : Usage
}.

(** [response.choices[0].message] *)
Definition first_message (response : ReplyJson) : M Entry :=
  match rj_choices response with
  | None => throw (type_error_reading "undefined" "0")
  | Some [] => throw (type_error_reading "undefined" "message")
  | Some (c :: _) => ret (ch_message c)
  end.

(** The memory update of [executeAgent]: the push of the two entries and the
    trim that follows it. *)
Definition push_and_limit (memory : list Entry) (message : string)
    (assistantMessage : Entry) : list Entry :=
  let memory' :=
    memory ++ [Some {| msg_role := "user"; msg_content := message |}; assistantMessage] in
  if 20 <? Z.of_nat (length memory') then slice (-20) memory' else memory'.

Definition set_memory (memory : list Entry) (a : Agent) : Agent :=
  {| ag_id := ag_id a; ag_name := ag_name a; ag_role := ag_role a;
     ag_provider := ag_provider a; ag_model := ag_model a;
     ag_instructions := ag_instructions a; ag_memory := memory;
     ag_created := ag_created a |}.

(** [executeAgent(agentId, message, context)]; [options] is [context.options],
    absent when the context has none. *)
Definition executeAgent (agentId : string) (message : string)
    (options : option Options) : M ExecResult :=
  let! found := gets (fun s => agents s !! agentId) in
  match found with
  | None => throw (Error "Agent not found")
  | Some agent =>
      let messages :=
        [Some {| msg_role := "system"; msg_content := ag_instructions agent |}]
        ++ ag_memory agent
        ++ [Some {| msg_role := "user"; msg_content := message |}] in
      let! response :=
        callAPI (ag_provider agent) messages (ag_model agent) (default [] options) in
      let! assistantMessage := first_message response in
      modify (set_agents (insert agentId
        (set_memory (push_and_limit (ag_memory agent) message assistantMessage) agent)))
      >>
      match assistantMessage with
      | None => throw (type_error_reading "undefined" "content")
      | Some m =>
          ret {| res_agent :=
                   {| sum_id := ag_id agent; sum_name := ag_name agent;
                      sum_role := ag_role agent; sum_provider := ag_provider agent |};
                 res_response := msg_content m;
                 res_usage := rj_usage response |}
      end
  end.

(** An entry of [collaboration.conversation]: the record of a turn that
    returned, [{iteration, timestamp, agent, response, usage}], or of a turn
    that threw, [{iteration, timestamp, agent: {id}, error}]. *)
Inductive TurnRecord :=
| TurnResponse (iteration : Z) (timestamp : Z) (result : ExecResult)
| TurnError (iteration : Z) (timestamp : Z) (agentId : string) (error : string).

Definition turn_iteration (r : TurnRecord) : Z :=
  match r with TurnResponse i _ _ | TurnError i _ _ _ => i end.

Definition turn_agent_id (r : TurnRecord) : string :=
  match r with
  | TurnResponse _ _ res => sum_id (res_agent res)
  | TurnError _ _ id _ => id
  end.

Definition turn_error (r : TurnRecord) : option string :=
  match r with TurnResponse _ _ _ => None | TurnError _ _ _ e => Some e end.

Definition turn_response (r : TurnRecord) : option string :=
  match r with TurnResponse _ _ res => Some (res_response res) | TurnError _ _ _ _ => None end.

Record Collaboration := {
  col_id : string;
  col_goal : string;
  col_agents : list string;
  conversation : list TurnRecord;
  started : Z;
  completed : option Z      (* absent until the loops are over *)
}.

(** The callback [r => `${r.agent.name}: ${r.response}`]: both properties
    are [undefined] on the record of a turn that threw. *)
Definition render (r : TurnRecord) : string :=
  match r with
  | TurnResponse _ _ res => sum_name (res_agent res) +:+ ": " +:+ res_response res
  | TurnError _ _ _ _ => "undefined: undefined"
  end.

Definition initial_message (goal : string) : string :=
  "Goal: " +:+ goal +:+ nl +:+ nl
  +:+ "Let's work together to achieve this goal. Please provide your initial thoughts and approach.".

(** The text assigned to [currentMessage] after a turn that returned. *)
Definition digest (agentIds : list string) (conv : list TurnRecord) : string :=
  "Previous responses:" +:+ nl
  +:+ join (nl +:+ nl) (map render (slice (- Z.of_nat (length agentIds)) conv))
  +:+ nl +:+ nl
  +:+ "Please build upon these ideas and continue working toward our goal.".

(** The variables the loops of [collaborateAgents] assign. *)
Record Loop := { conv : list TurnRecord; currentMessage : string }.

(** Body of the inner loop: one [try]/[catch]. *)
Definition turn (agentIds : list string) (i : Z) (agentId : string) (l : Loop)
  : M Loop :=
  try_catch
    (let! result := executeAgent agentId (currentMessage l) None in
     let! timestamp := Date_now in
     let conv' := conv l ++ [TurnResponse (i + 1) timestamp result] in
     ret {| conv := conv'; currentMessage := digest agentIds conv' |})
    (fun error =>
       let! timestamp := Date_now in
       ret {| conv := conv l ++ [TurnError (i + 1) timestamp agentId (error_message error)];
              currentMessage := currentMessage l |}).

(** [for (const agentId of agentIds) { ... }], over the rest [todo] of the
    array. *)
Fixpoint round (agentIds : list string) (i : Z) (todo : list string) (l : Loop)
  : M Loop :=
  match todo with
  | [] => ret l
  | agentId :: todo' =>
      let! l' := turn agentIds i agentId l in round agentIds i todo' l'
  end.

(** [for (let i = 0; i < iterations; i++) { ... }]: [n] passes are left and
    the counter is at [i]. *)
Fixpoint rounds (agentIds : list string) (n : nat) (i : Z) (l : Loop) : M Loop :=
  match n with
  | O => ret l
  | S n' =>
      let! l' := round agentIds i agentIds l in rounds agentIds n' (i + 1) l'
  end.

(** [collaborateAgents(agentIds, goal, iterations)] with an integer
    [iterations]: the test [i < iterations] holds for
    [Z.to_nat iterations] values of [i]. *)
Definition collaborateAgents (agentIds : list string) (goal : string)
    (iterations : Z) : M Collaboration :=
  let! id := uuidv4 in
  let! t0 := Date_now in
  let! l := rounds agentIds (Z.to_nat iterations) 0
              {| conv := []; currentMessage := initial_message goal |} in
  let! t1 := Date_now in
  ret {| col_id := id; col_goal := goal; col_agents := agentIds;
         conversation := conv l; started := t0; completed := Some t1 |}.

End Server.

(** ** Start of the process *)

(** [parseInt(process.env.X) || 60]; [None] is [NaN]. *)
Definition limit_or_60 (parsed : option Z) : Z :=
  match parsed with
  | Some n => if n =? 0 then 60 else n
  | None => 60
  end.

(** The state once the module is loaded: [metrics] is built first, then
    [new DualAPIOrchestrator()] builds the client, whose constructor reads
    the clock once per provider. *)
Definition startup (E : Env) (openai_key anthropic_key : option string)
    (openai_limit anthropic_limit : option Z) : Proc :=
  {| openaiKey := openai_key;
     anthropicKey := anthropic_key;
     rateLimits :=
       {| rl_openai := {| requests := 0; resetTime := env_now E 1 + 60000;
                          limit := limit_or_60 openai_limit |};
          rl_anthropic := {| requests := 0; resetTime := env_now E 2 + 60000;
                             limit := limit_or_60 anthropic_limit |} |};
     metrics := {| startTime := env_now E 0; m_requests := 0; openaiRequests := 0;
                   anthropicRequests := 0; errors := 0; activeSessions := 0;
                   totalSessions := 0 |};
     agents := ∅;
     nowCalls := 3; uuidCalls := 0; sent := [] |}.

(** ** The rate limiter as the specification words it *)

Module Spec.

(** The lazy reset: [now] is the clock when the window is consulted, [now']
    the clock when the new reset time is computed. *)
Definition reset (now now' : Z) (w : RateLimit) : RateLimit :=
  if resetTime w <? now
  then {| requests := 0; resetTime := now' + 60000; limit := limit w |}
  else w.

(** Check and reserve: after the reset, accept and count the request iff the
    count is below the limit, else leave the window as it is. *)
Definition checkAndReserve (now now' : Z) (w : RateLimit) : bool * RateLimit :=
  let w1 := reset now now' w in
  if requests w1 <? limit w1 then (true, incr_requests w1) else (false, w1).

End Spec.

(** The contract of the admission gate of an adapter [call] of [provider]
    whose credential [key] is configured, from a state [s], read on the
    fields of the provider's own entry [window] of [rateLimits] and of the
    [other] provider's entry.  The check answers as the specification's
    check-and-reserve and leaves the window reset if its reset time had
    passed, and as it was if not; an accepted call has added one to the
    count of that window; a denied call throws [denied], sends nothing,
    counts nothing and leaves the window as the check left it, which is the
    window before the call when the limit is positive.  The other
    provider's entry is never written. *)
Definition gate_contract (E : Env) (call : M ReplyJson) (provider denied : string)
    (key : Proc -> option string) (window other : RateLimits -> RateLimit)
    (s : Proc) : Prop :=
  key_missing (key s) = false ->
  let w := window (rateLimits s) in
  let now := env_now E (nowCalls s) in
  let now' := env_now E (S (nowCalls s)) in
  let verdict := Spec.checkAndReserve now now' w in
  let check := checkRateLimit E provider s in
  let w1 := window (rateLimits check.2) in
  let w2 := window (rateLimits (call s).2) in
  (check.1 = Return verdict.1
   /\ (verdict.1 = true <-> requests w1 < limit w1)
   /\ w1 = Spec.reset now now' w
   /\ (resetTime w < now ->
         requests w1 = 0 /\ resetTime w1 = now' + 60000 /\ limit w1 = limit w)
   /\ (now <= resetTime w -> w1 = w)
   /\ other (rateLimits check.2) = other (rateLimits s)
   /\ metrics check.2 = metrics s /\ sent check.2 = sent s)
  /\ w2 = verdict.2
  /\ other (rateLimits (call s).2) = other (rateLimits s)
  /\ (verdict.1 = true ->
        requests w2 = requests w1 + 1
        /\ resetTime w2 = resetTime w1 /\ limit w2 = limit w1)
  /\ (verdict.1 = false ->
        (call s).1 = Throw (Error denied)
        /\ sent (call s).2 = sent s
        /\ metrics (call s).2 = metrics s
        /\ w2 = w1
        /\ (0 < limit w -> rateLimits (call s).2 = rateLimits s)).

(** ** The adapters as functions of the oracle *)

(** The state [checkRateLimit] leaves when the provider's window was [w]. *)
Definition after_check (E : Env) (provider : string) (w : RateLimit) (s : Proc) : Proc :=
  let now := env_now E (nowCalls s) in
  let now' := env_now E (S (nowCalls s)) in
  {| openaiKey := openaiKey s; anthropicKey := anthropicKey s;
     rateLimits := update_rateLimit provider (fun _ => Spec.reset now now' w) (rateLimits s);
     metrics := metrics s; agents := agents s;
     nowCalls := if resetTime w <? now then S (S (nowCalls s)) else S (nowCalls s);
     uuidCalls := uuidCalls s; sent := sent s |}.

(** The state of an accepted call before its request goes out. *)
Definition reserved (E : Env) (provider : string) (bump : Metrics -> Metrics)
    (w : RateLimit) (s : Proc) : Proc :=
  set_metrics bump
    (set_rateLimits (update_rateLimit provider incr_requests)
       (after_check E provider w s)).

Definition push_sent (r : Request) (s : Proc) : Proc :=
  {| openaiKey := openaiKey s; anthropicKey := anthropicKey s;
     rateLimits := rateLimits s; metrics := metrics s; agents := agents s;
     nowCalls := nowCalls s; uuidCalls := uuidCalls s; sent := sent s ++ [r] |}.

(** What [callOpenAI] makes of the outcome of its [fetch]. *)
Definition openai_outcome (r : FetchResult) : Outcome ReplyJson :=
  match r with
  | Rejected e => Throw e
  | Resolved resp =>
      if resp_ok resp then
        match resp_json resp with
        | inr v => Return v
        | inl e => Throw e
        end
      else Throw (Error ("OpenAI API error: " +:+ pretty (resp_status resp) +:+ " "
                         +:+ resp_statusText resp))
  end.

(** What [callAnthropic] makes of the outcome of its [fetch]. *)
Definition anthropic_outcome (r : FetchResult) : Outcome ReplyJson :=
  match r with
  | Rejected e => Throw e
  | Resolved resp =>
      if resp_ok resp then
        match resp_json resp with
        | inr result =>
            match rj_content result with
            | Some (b :: _) => Return (normalized (cb_text b) (rj_usage result))
            | Some [] => Throw (type_error_reading "undefined" "text")
            | None => Throw (type_error_reading "undefined" "0")
            end
        | inl e => Throw e
        end
      else Throw (Error ("Anthropic API error: " +:+ pretty (resp_status resp) +:+ " "
                         +:+ resp_statusText resp))
  end.

(** The entries of a message array when none is [undefined]. *)
Fixpoint all_defined (ms : list Entry) : option (list Message) :=
  match ms with
  | [] => Some []
  | None :: _ => None
  | Some m :: ms' =>
      match all_defined ms' with
      | Some r => Some (m :: r)
      | None => None
      end
  end.

(** ** Concrete worlds for the examples *)

Module Scenario.

(** A successful reply carrying the text [t] in both providers' shapes. *)
Definition reply (t : string) : FetchResult :=
  Resolved
    {| resp_ok := true; resp_status := 200; resp_statusText := "OK";
       resp_json :=
         inr {| rj_choices :=
                  Some [ {| ch_message :=
                              Some {| msg_role := "assistant"; msg_content := t |} |} ];
                rj_content := Some [ {| cb_text := t |} ];
                rj_usage := Some [("total_tokens", 7)] |} |}.

Definition unavailable : FetchResult :=
  Resolved
    {| resp_ok := false; resp_status := 503; resp_statusText := "Service Unavailable";
       resp_json := inl (Error "Unexpected end of JSON input") |}.

(** Every request is answered; the [n]-th answer is "reply n".  The clock
    stands at 1000 for the first six readings and at 70000 afterwards. *)
Definition E_up : Env :=
  {| env_now := fun n => if (n <? 6)%nat then 1000 else 70000;
     env_uuid := fun n => "agent-" +:+ pretty n;
     env_fetch := fun n _ => reply ("reply " +:+ pretty n) |}.

(** Every request is refused with status 503. *)
Definition E_down : Env :=
  {| env_now := fun n => 1000 + Z.of_nat n;
     env_uuid := fun n => "agent-" +:+ pretty n;
     env_fetch := fun _ _ => unavailable |}.

(** Both credentials configured, one request per minute and provider. *)
Definition limit1 (E : Env) : Proc :=
  startup E (Some "sk-test") (Some "sk-ant-test") (Some 1) (Some 1).

(** Only the OpenAI credential configured, default limits. *)
Definition openai_only (E : Env) : Proc :=
  startup E (Some "sk-test") None None None.

Definition config_of (name provider : string) : Config :=
  {| cfg_name := Some name; cfg_role := None; cfg_provider := Some provider;
     cfg_model := None; cfg_instructions := None |}.

(** Three agents, the second on the provider without credential, and two
    iterations. *)
Definition three_agents (E : Env) : M Collaboration :=
  let! a := createAgent E (config_of "Ada" "openai") in
  let! b := createAgent E (config_of "Bob" "anthropic") in
  let! c := createAgent E (config_of "Cy" "openai") in
  collaborateAgents E [ag_id a; ag_id b; ag_id c] "plan" 2.

(** Two agents, the first on OpenAI, the second on [provider2]. *)
Definition two_agents (E : Env) (provider2 : string) : M unit :=
  createAgent E (config_of "Ada" "openai")
  >> createAgent E (config_of "Bob" provider2)
  >> ret tt.

Definition pair : list string := ["agent-0"; "agent-1"].

(** A message list with two system messages among the others. *)
Definition mixed : list Message :=
  [{| msg_role := "user"; msg_content := "U1" |};
   {| msg_role := "system"; msg_content := "S1" |};
   {| msg_role := "assistant"; msg_content := "A1" |};
   {| msg_role := "system"; msg_content := "S2" |}].

(** [n] exchanges with one agent, numbered from [k]. *)
Fixpoint exchanges (E : Env) (agentId : string) (n k : nat) : M unit :=
  match n with
  | O => ret tt
  | S n' =>
      executeAgent E agentId ("question " +:+ pretty k) None
      >> exchanges E agentId n' (S k)
  end.

(** What the [k]-th exchange with [E_up] appends when the agent's requests
    are the only ones sent. *)
Definition exchanged (k : nat) : list Entry :=
  [Some {| msg_role := "user"; msg_content := "question " +:+ pretty k |};
   Some {| msg_role := "assistant"; msg_content := "reply " +:+ pretty k |}].

End Scenario.

(** ** The shape of a conversation *)

(** The iteration numbers of the records of [n] rounds of [k] turns each,
    the loop counter starting at [i]. *)
Fixpoint round_numbers (k n : nat) (i : Z) : list Z :=
  match n with
  | O => []
  | S n' => replicate k (i + 1) ++ round_numbers k n' (i + 1)
  end.

(** ** Agent memory *)

(** Every registered agent holds at most 20 entries. *)
Definition memory_bounded (s : Proc) : Prop :=
  forall id agent, agents s !! id = Some agent -> (length (ag_memory agent) <= 20)%nat.

(** The two entries an exchange appends. *)
Definition exchange_entries (x : string * Entry) : list Entry :=
  [Some {| msg_role := "user"; msg_content := x.1 |}; x.2].

(** The memory after a series of exchanges, each a user message and the
    assistant's entry, oldest first. *)
Definition exchange_all (memory : list Entry) (xs : list (string * Entry)) : list Entry :=
  fold_left (fun m x => push_and_limit m x.1 x.2) xs memory.

(** A property of the state that a computation keeps, whether it returns
    or throws. *)
Definition keeps {A} (I : Proc -> Prop) (m : M A) : Prop :=
  forall s, I s -> I (m s).2.

(** Every agent is registered under its own id. *)
Definition registry_consistent (s : Proc) : Prop :=
  forall id agent, agents s !! id = Some agent -> ag_id agent = id.

From Stdlib Require Import Sorted.

(** ** Invariants of the client state *)

(** The state after one more reading of the clock, and after one more
    identifier was drawn. *)
Definition tick (s : Proc) : Proc :=
  {| openaiKey := openaiKey s; anthropicKey := anthropicKey s;
     rateLimits := rateLimits s; metrics := metrics s; agents := agents s;
     nowCalls := S (nowCalls s); uuidCalls := uuidCalls s; sent := sent s |}.

Definition drawn (s : Proc) : Proc :=
  {| openaiKey := openaiKey s; anthropicKey := anthropicKey s;
     rateLimits := rateLimits s; metrics := metrics s; agents := agents s;
     nowCalls := nowCalls s; uuidCalls := S (uuidCalls s); sent := sent s |}.

(** A window opened at [t] in place of the window [w]. *)
Definition fresh_window (t : Z) (w : RateLimit) : RateLimit :=
  {| requests := 0; resetTime := t + 60000; limit := limit w |}.

(** A property of the state that every elementary step of the client and
    of the orchestrator keeps: reading the clock, drawing an identifier,
    sending a request, counting in [metrics], writing the registry,
    opening a fresh window, and counting a request in a window that has
    room for it. *)
Record Respects (I : Proc -> Prop) : Prop := {
  respects_tick : forall s, I s -> I (tick s);
  respects_drawn : forall s, I s -> I (drawn s);
  respects_sent : forall r s, I s -> I (push_sent r s);
  respects_openaiRequests : forall s, I s -> I (set_metrics incr_openaiRequests s);
  respects_anthropicRequests : forall s, I s -> I (set_metrics incr_anthropicRequests s);
  respects_errors : forall s, I s -> I (set_metrics incr_errors s);
  respects_agents : forall f s, I s -> I (set_agents f s);
  respects_reset : forall provider t w s,
    rateLimit_of provider (rateLimits s) = Some w ->
    I s -> I (set_rateLimits (update_rateLimit provider (fun _ => fresh_window t w)) s);
  respects_reserve : forall provider w s,
    rateLimit_of provider (rateLimits s) = Some w ->
    requests w < limit w ->
    I s -> I (set_rateLimits (update_rateLimit provider incr_requests) s)
}.

(** No window counts more requests than its limit allows. *)
Definition within_limits (s : Proc) : Prop :=
  forall provider w,
    rateLimit_of provider (rateLimits s) = Some w ->
    0 <= requests w <= Z.max 0 (limit w).

(** The configured limits are [lo] and [la]. *)
Definition limits_are (lo la : Z) (s : Proc) : Prop :=
  limit (rl_openai (rateLimits s)) = lo /\ limit (rl_anthropic (rateLimits s)) = la.

(** A computation that hands at most [n] requests to [fetch], and only
    appends to the log of requests. *)
Definition sends_at_most {A} (n : nat) (m : M A) : Prop :=
  forall s, exists extra,
    sent (m s).2 = sent s ++ extra /\ (length extra <= n)%nat.

Definition turn_timestamp (r : TurnRecord) : Z :=
  match r with TurnResponse _ t _ | TurnError _ t _ _ => t end.

(** The records of a loop state were stamped in order by readings of the
    clock taken from reading number [n0] on and before the next one. *)
Definition stamped (E : Env) (n0 : nat) (l : Loop) (s : Proc) : Prop :=
  (n0 <= nowCalls s)%nat
  /\ StronglySorted Z.le (map turn_timestamp (conv l))
  /\ Forall (fun r => exists k, (n0 <= k < nowCalls s)%nat
                                /\ turn_timestamp r = env_now E k) (conv l).

(** ** The turns of a run *)

(** The turns of [n] passes of the outer loop in the order they are taken:
    the value of the loop counter, which starts at [i], and the agent. *)
Fixpoint schedule (agentIds : list string) (n : nat) (i : Z) : list (Z * string) :=
  match n with
  | O => []
  | S n' => map (pair i) agentIds ++ schedule agentIds n' (i + 1)
  end.

(** [Turns E agentIds todo l s log l' s']: taking the turns [todo] one after
    the other, from the loop variables [l] and the state [s], ends with the
    loop variables [l'] and the state [s'], and [log] lists for each turn
    the prompt [executeAgent] was called with and the record that was
    appended.  A call that returns is recorded with its result and the
    prompt is derived anew; a call that throws is recorded with the
    message of the error and the prompt stays. *)
Inductive Turns (E : Env) (agentIds : list string)
  : list (Z * string) -> Loop -> Proc -> list (string * TurnRecord) -> Loop -> Proc
    -> Prop :=
| turns_done l s : Turns E agentIds [] l s [] l s
| turns_returned i agentId todo l s result s1 log l' s' :
    executeAgent E agentId (currentMessage l) None s = (Return result, s1) ->
    Turns E agentIds todo
      {| conv := conv l ++ [TurnResponse (i + 1) (env_now E (nowCalls s1)) result];
         currentMessage :=
           digest agentIds
             (conv l ++ [TurnResponse (i + 1) (env_now E (nowCalls s1)) result]) |}
      (tick s1) log l' s' ->
    Turns E agentIds ((i, agentId) :: todo) l s
      ((currentMessage l, TurnResponse (i + 1) (env_now E (nowCalls s1)) result) :: log)
      l' s'
| turns_threw i agentId todo l s e s1 log l' s' :
    executeAgent E agentId (currentMessage l) None s = (Throw e, s1) ->
    Turns E agentIds todo
      {| conv := conv l ++ [TurnError (i + 1) (env_now E (nowCalls s1)) agentId
                              (error_message e)];
         currentMessage := currentMessage l |}
      (tick s1) log l' s' ->
    Turns E agentIds ((i, agentId) :: todo) l s
      ((currentMessage l,
        TurnError (i + 1) (env_now E (nowCalls s1)) agentId (error_message e)) :: log)
      l' s'.

(** ** A series of exchanges *)

(** A caller that sends [messages] to one agent, awaiting each result
    before the next call; the results in order. *)
Fixpoint converse (E : Env) (agentId : string) (messages : list string)
  : M (list ExecResult) :=
  match messages with
  | [] => ret []
  | message :: rest =>
      let! result := executeAgent E agentId message None in
      let! results := converse E agentId rest in
      ret (result :: results)
  end.

(** The entries that exchanges append: each user message followed by the
    reply to it. *)
Definition appended (messages : list string) (replies : list Message) : list Entry :=
  concat (zip_with
    (fun message reply =>
       [Some {| msg_role := "user"; msg_content := message |}; Some reply])
    messages replies).

(** An entry of a [messages] array on the wire carries the role and the
    content of the memory entry it renders; an [undefined] entry is written
    as [null]. *)
Definition renders (e : Entry) (j : Json) : Prop :=
  match e with
  | Some m =>
      exists fields,
        j = JObj fields
        /\ obj_get "role" fields = Some (JStr (msg_role m))
        /\ obj_get "content" fields = Some (JStr (msg_content m))
  | None => j = JNull
  end.

(** ** Further worlds for the examples *)

Module Cases.

(** Every request is answered by a reply whose first choice has no
    message. *)
Definition E_blank : Env :=
  {| env_now := fun n => 1000 + Z.of_nat n;
     env_uuid := fun n => "agent-" +:+ pretty n;
     env_fetch := fun _ _ =>
       Resolved
         {| resp_ok := true; resp_status := 200; resp_statusText := "OK";
            resp_json := inr {| rj_choices := Some [ {| ch_message := None |} ];
                                rj_content := None; rj_usage := None |} |} |}.

End Cases.

(** ** The HTTP routes *)

(** What a route hands to [res.json]. *)
Inductive Payload :=
| AgentCreated (agent : Agent)                 (* {success: true, agent} *)
| AgentExecuted (result : ExecResult)          (* {success: true, result} *)
| Collaborated (collaboration : Collaboration) (* {success: true, collaboration} *)
| CollaboratedUnlisted (id goal : string) (started completed : Z)
    (* {success: true, collaboration}: a run without turns whose [agents]
       is what the body gave in place of a list, if anything *)
| Failed (error : string).                     (* {error} *)

(** A response: [res.json] answers 200 unless [res.status] was called. *)
Record HttpResponse := { status : Z; payload : Payload }.

Definition bad_request (error : JsError) : M HttpResponse :=
  ret {| status := 400; payload := Failed (error_message error) |}.

Section Routes.

Variable E : Env.

(** The request logging middleware: [metrics.requests++], then the next
    handler. *)
Definition logged {A} (next : M A) : M A :=
  modify (set_metrics (fun m =>
    {| startTime := startTime m; m_requests := m_requests m + 1;
       openaiRequests := openaiRequests m;
       anthropicRequests := anthropicRequests m; errors := errors m;
       activeSessions := activeSessions m; totalSessions := totalSessions m |}))
  >> next.

(** [POST /api/agents] *)
Definition post_agents (body : Config) : M HttpResponse :=
  try_catch
    (let! agent := createAgent E body in
     ret {| status := 200; payload := AgentCreated agent |})
    bad_request.

(** [POST /api/agents/:id/execute] with body [{message, options}] *)
Definition post_execute (id : string) (message : string) (options : option Options)
  : M HttpResponse :=
  try_catch
    (let! result := executeAgent E id message options in
     ret {| status := 200; payload := AgentExecuted result |})
    bad_request.

(** The member [iterations] of a request body, as [collaborateAgents]
    takes it: when it is absent the default 3 of the parameter applies; the
    JSON value [null] makes the test [i < iterations] false at once; a
    number is used as it is. *)
Inductive Iterations :=
| NoIterations
| NullIterations
| NumberOfIterations (n : Z).

Definition iterations_of (iterations : Iterations) : Z :=
  match iterations with
  | NoIterations => 3
  | NullIterations => 0
  | NumberOfIterations n => n
  end.

(** [POST /api/collaborate] with body [{agentIds, goal, iterations}].
    [agentIds] is [None] when the body has no such member or one that is
    not iterable: [collaborateAgents] then builds its record and throws at
    [for (const agentId of agentIds)], outside the [try] of the turns, as
    soon as the outer loop is entered; when the outer loop is not entered
    it returns its record without [agents]. *)
Definition post_collaborate (agentIds : option (list string)) (goal : string)
    (iterations : Iterations) : M HttpResponse :=
  try_catch
    (match agentIds with
     | Some agentIds =>
         let! collaboration :=
           collaborateAgents E agentIds goal (iterations_of iterations) in
         ret {| status := 200; payload := Collaborated collaboration |}
     | None =>
         let! id := uuidv4 E in
         let! t0 := Date_now E in
         if 0 <? iterations_of iterations then
           throw (Error "agentIds is not iterable")
         else
           let! t1 := Date_now E in
           ret {| status := 200; payload := CollaboratedUnlisted id goal t0 t1 |}
     end)
    bad_request.

End Routes.

(** ** The WebSocket channel *)

(** An entry of [sessions], without its socket: the socket of a session is
    named by the session's id. *)
Record Session := {
  ses_id : string;
  ses_ip : string;
  ses_created : Z;
  ses_lastActivity : Z
}.

(** The messages the server sends. *)
Inductive Event :=
| Connected (sessionId : string) (timestamp : Z)
| Pong (timestamp : Z)
| AgentResponse (requestId : option string) (result : ExecResult) (timestamp : Z)
| CollaborationResult (requestId : option string) (collaboration : Collaboration)
    (timestamp : Z)
| ErrorEvent (message : string) (timestamp : Z).

(** A parsed inbound message, by its [type]. *)
Inductive Inbound :=
| Ping
| ExecuteAgent (agentId message : string) (options : option Options)
    (requestId : option string)
| StartCollaboration (agentIds : list string) (goal : string) (iterations : option Z)
    (requestId : option string)
| OtherType.

(** The server: the process state, the [sessions] map, what was sent on
    which socket, oldest first, and the sockets that were terminated. *)
Record Srv := {
  proc : Proc;
  sessions : gmap string Session;
  outbox : list (string * Event);
  terminated : gset string
}.

Definition W (A : Type) : Type := Srv -> Outcome A * Srv.

Definition wret {A} (a : A) : W A := fun v => (Return a, v).

Definition wthrow {A} (e : JsError) : W A := fun v => (Throw e, v).

Definition wbind {A B} (m : W A) (k : A -> W B) : W B :=
  fun v =>
    match m v with
    | (Return a, v') => k a v'
    | (Throw e, v') => (Throw e, v')
    end.

Definition wtry {A} (m : W A) (h : JsError -> W A) : W A :=
  fun v =>
    match m v with
    | (Return a, v') => (Return a, v')
    | (Throw e, v') => h e v'
    end.

(** A computation of the orchestrator, run on the process state. *)
Definition lift {A} (m : M A) : W A :=
  fun v =>
    let r := m (proc v) in
    (r.1, {| proc := r.2; sessions := sessions v; outbox := outbox v;
             terminated := terminated v |}).

Definition set_sessions (f : gmap string Session -> gmap string Session) : W unit :=
  fun v =>
    (Return tt, {| proc := proc v; sessions := f (sessions v); outbox := outbox v;
                   terminated := terminated v |}).

(** [ws.send(JSON.stringify(event))] on the socket of [sessionId] *)
Definition ws_send (sessionId : string) (event : Event) : W unit :=
  fun v =>
    (Return tt, {| proc := proc v; sessions := sessions v;
                   outbox := outbox v ++ [(sessionId, event)];
                   terminated := terminated v |}).

Definition with_activeSessions (n : Z) (m : Metrics) : Metrics :=
  {| startTime := startTime m; m_requests := m_requests m;
     openaiRequests := openaiRequests m;
     anthropicRequests := anthropicRequests m; errors := errors m;
     activeSessions := n; totalSessions := totalSessions m |}.

(** [metrics.activeSessions = sessions.size] *)
Definition count_sessions : W unit :=
  fun v =>
    (Return tt,
     {| proc := set_metrics (with_activeSessions (Z.of_nat (size (sessions v)))) (proc v);
        sessions := sessions v; outbox := outbox v; terminated := terminated v |}).

Definition incr_totalSessions (m : Metrics) : Metrics :=
  {| startTime := startTime m; m_requests := m_requests m;
     openaiRequests := openaiRequests m;
     anthropicRequests := anthropicRequests m; errors := errors m;
     activeSessions := activeSessions m; totalSessions := totalSessions m + 1 |}.

Notation "'let*' x ':=' m 'in' k" := (wbind m (fun x => k))
  (at level 10, x pattern, m at level 100, k at level 200).
Notation "m '>>>' k" := (wbind m (fun _ => k))
  (at level 90, right associativity).

Definition touch (now : Z) (x : Session) : Session :=
  {| ses_id := ses_id x; ses_ip := ses_ip x; ses_created := ses_created x;
     ses_lastActivity := now |}.

(** [message.iterations || 3] *)
Definition iterations_or_3 (iterations : option Z) : Z :=
  match iterations with
  | Some n => if n =? 0 then 3 else n
  | None => 3
  end.

Section Channel.

Variable E : Env.

(** [wss.on('connection', (ws, req) => ...)] for a socket whose remote
    address is [ip], up to the registration of the socket's handlers. *)
Definition on_connection (ip : string) : W unit :=
  let* sessionId := lift (uuidv4 E) in
  let* created := lift (Date_now E) in
  let* lastActivity := lift (Date_now E) in
  set_sessions (insert sessionId
    {| ses_id := sessionId; ses_ip := ip; ses_created := created;
       ses_lastActivity := lastActivity |})
  >>> count_sessions
  >>> lift (modify (set_metrics incr_totalSessions))
  >>> let* timestamp := lift (Date_now E) in
  ws_send sessionId (Connected sessionId timestamp).

(** [ws.on('message', async (data) => ...)] of the session [sessionId];
    [data] is what [JSON.parse(data)] throws or returns. *)
Definition on_message (sessionId : string) (data : JsError + Inbound) : W unit :=
  wtry
    (let* now := lift (Date_now E) in
     set_sessions (alter (touch now) sessionId) >>>
     match data with
     | inl error => wthrow error
     | inr Ping =>
         let* timestamp := lift (Date_now E) in
         ws_send sessionId (Pong timestamp)
     | inr (ExecuteAgent agentId message options requestId) =>
         let* result := lift (executeAgent E agentId message options) in
         let* timestamp := lift (Date_now E) in
         ws_send sessionId (AgentResponse requestId result timestamp)
     | inr (StartCollaboration agentIds goal iterations requestId) =>
         let* collaboration :=
           lift (collaborateAgents E agentIds goal (iterations_or_3 iterations)) in
         let* timestamp := lift (Date_now E) in
         ws_send sessionId (CollaborationResult requestId collaboration timestamp)
     | inr OtherType =>
         let* timestamp := lift (Date_now E) in
         ws_send sessionId (ErrorEvent "Unknown message type" timestamp)
     end)
    (fun error =>
       let* timestamp := lift (Date_now E) in
       ws_send sessionId (ErrorEvent (error_message error) timestamp)).

(** [ws.on('close', ...)], and [ws.on('error', ...)] which does the same
    to the state. *)
Definition on_close (sessionId : string) : W unit :=
  set_sessions (delete sessionId) >>> count_sessions.

Definition on_error (sessionId : string) : W unit :=
  set_sessions (delete sessionId) >>> count_sessions.

(** The callback of the cleanup interval: sessions idle for more than 30
    minutes are terminated and deleted. *)
Definition cleanup : W unit :=
  let* now := lift (Date_now E) in
  let timeout := 30 * 60 * 1000 in
  (fun v =>
     let stale := filter (fun kx => timeout < now - ses_lastActivity kx.2) (sessions v) in
     (Return tt,
      {| proc := proc v;
         sessions := filter (fun kx => ~ timeout < now - ses_lastActivity kx.2) (sessions v);
         outbox := outbox v;
         terminated := terminated v ∪ dom stale |}))
  >>> count_sessions.

End Channel.

(** The server once the module is loaded. *)
Definition boot (E : Env) (openai_key anthropic_key : option string)
    (openai_limit anthropic_limit : option Z) : Srv :=
  {| proc := startup E openai_key anthropic_key openai_limit anthropic_limit;
     sessions := ∅; outbox := []; terminated := ∅ |}.

(** [metrics.activeSessions] is the number of sessions. *)
Definition sessions_counted (v : Srv) : Prop :=
  activeSessions (metrics (proc v)) = Z.of_nat (size (sessions v)).

(** * Theorems *)

(** ** Reasoning about runs *)

Lemma update_rateLimit_id provider w r :
  rateLimit_of provider r = Some w ->
  update_rateLimit provider (fun _ => w) r = r.
Proof.
  unfold rateLimit_of, update_rateLimit.
  repeat case_decide; intros [= <-]; by destruct r.
Qed.

Lemma update_rateLimit_twice provider f g r :
  update_rateLimit provider f (update_rateLimit provider g r)
  = update_rateLimit provider (fun w => f (g w)) r.
Proof. unfold update_rateLimit. by repeat case_decide. Qed.

Lemma bind_run {A B} (m : M A) (k : A -> M B) s :
  bind m k s = match m s with
               | (Return a, s') => k a s'
               | (Throw e, s') => (Throw e, s')
               end.
Proof. reflexivity. Qed.

(** What [checkRateLimit] does, in one equation. *)
Lemma checkRateLimit_run E provider s w :
  rateLimit_of provider (rateLimits s) = Some w ->
  let w1 := Spec.reset (env_now E (nowCalls s)) (env_now E (S (nowCalls s))) w in
  checkRateLimit E provider s =
    (Return (requests w1 <? limit w1), after_check E provider w s).
Proof.
  intros Hw. cbn zeta.
  unfold checkRateLimit, after_check, Spec.reset, bind, gets, Date_now, modify, ret.
  cbn. rewrite Hw.
  destruct (resetTime w <? env_now E (nowCalls s)); cbn; [done|].
  by rewrite (update_rateLimit_id _ _ _ Hw).
Qed.

Lemma fetch_run E r s :
  fetch E r s =
    (match env_fetch E (length (sent s)) r with
     | Resolved resp => Return resp
     | Rejected e => Throw e
     end, push_sent r s).
Proof. unfold fetch. by destruct (env_fetch _ _ _). Qed.

(** [callOpenAI] in one equation. *)
Lemma callOpenAI_run E messages model options s :
  let w := rl_openai (rateLimits s) in
  let w1 := Spec.reset (env_now E (nowCalls s)) (env_now E (S (nowCalls s))) w in
  let req := openai_request (default "" (openaiKey s)) messages model options in
  callOpenAI E messages model options s =
    if key_missing (openaiKey s) then
      (Throw (Error "OpenAI API key not configured"), s)
    else if requests w1 <? limit w1 then
      (openai_outcome (env_fetch E (length (sent s)) req),
       push_sent req (reserved E "openai" incr_openaiRequests w s))
    else
      (Throw (Error "OpenAI rate limit exceeded"), after_check E "openai" w s).
Proof.
  cbn zeta. unfold callOpenAI. rewrite bind_run. cbn.
  destruct (key_missing (openaiKey s)); [done|].
  rewrite bind_run, (checkRateLimit_run E "openai" s (rl_openai (rateLimits s))) by done.
  cbn zeta. destruct (requests _ <? limit _); cbn; [|done].
  rewrite !bind_run. cbn. rewrite fetch_run. unfold reserved. cbn.
  destruct (env_fetch _ _ _) as [e|resp]; cbn; [done|].
  unfold response_json.
  destruct (resp_ok resp); cbn; [|done].
  by destruct (resp_json resp).
Qed.

Lemma defined_entries_run ms s :
  defined_entries ms s =
    (match all_defined ms with
     | Some r => Return r
     | None => Throw (type_error_reading "undefined" "role")
     end, s).
Proof.
  induction ms as [|[m|] ms IH]; cbn; [done| |done].
  rewrite bind_run, IH. by destruct (all_defined ms).
Qed.

Lemma all_defined_Some (ms : list Message) : all_defined (map Some ms) = Some ms.
Proof. induction ms as [|m ms IH]; cbn; [done|]. by rewrite IH. Qed.

(** [callAnthropic] in one equation. *)
Lemma callAnthropic_run E messages model options s :
  let w := rl_anthropic (rateLimits s) in
  let w1 := Spec.reset (env_now E (nowCalls s)) (env_now E (S (nowCalls s))) w in
  let s2 := reserved E "anthropic" incr_anthropicRequests w s in
  callAnthropic E messages model options s =
    if key_missing (anthropicKey s) then
      (Throw (Error "Anthropic API key not configured"), s)
    else if requests w1 <? limit w1 then
      match all_defined messages with
      | Some ms =>
          let req :=
            anthropic_request (default "" (anthropicKey s))
              (filter (fun m => msg_role m = "system") ms)
              (filter (fun m => msg_role m <> "system") ms) model options in
          (anthropic_outcome (env_fetch E (length (sent s)) req), push_sent req s2)
      | None => (Throw (type_error_reading "undefined" "role"), s2)
      end
    else
      (Throw (Error "Anthropic rate limit exceeded"), after_check E "anthropic" w s).
Proof.
  cbn zeta. unfold callAnthropic. rewrite bind_run. cbn.
  destruct (key_missing (anthropicKey s)); [done|].
  rewrite bind_run, (checkRateLimit_run E "anthropic" s (rl_anthropic (rateLimits s))) by done.
  cbn zeta. destruct (requests _ <? limit _); cbn; [|done].
  rewrite !bind_run. cbn. rewrite defined_entries_run.
  destruct (all_defined messages) as [ms|]; [|done].
  rewrite bind_run, fetch_run. unfold reserved. cbn.
  destruct (env_fetch _ _ _) as [e|resp]; cbn; [done|].
  destruct (resp_ok resp); cbn; [|done].
  rewrite bind_run. unfold response_json.
  destruct (resp_json resp) as [e|result]; cbn; [done|].
  rewrite bind_run. unfold first_text.
  by destruct (rj_content result) as [[|b bs]|].
Qed.

(** ** The rate limiter *)

Lemma rateLimit_of_openai r : rateLimit_of "openai" r = Some (rl_openai r).
Proof. done. Qed.

Lemma rateLimit_of_anthropic r : rateLimit_of "anthropic" r = Some (rl_anthropic r).
Proof. done. Qed.

Lemma denied_positive_limit now now' w :
  (requests (Spec.reset now now' w) <? limit (Spec.reset now now' w)) = false ->
  0 < limit w -> Spec.reset now now' w = w.
Proof.
  unfold Spec.reset. destruct (resetTime w <? now); cbn; [|done].
  intros Hden Hpos. apply Z.ltb_ge in Hden. lia.
Qed.

Lemma callOpenAI_gate E messages model options s :
  gate_contract E (callOpenAI E messages model options) "openai"
    "OpenAI rate limit exceeded" openaiKey rl_openai rl_anthropic s.
Proof.
  intros Hkey. cbn zeta.
  rewrite (checkRateLimit_run E "openai" s _ (rateLimit_of_openai _)).
  rewrite callOpenAI_run, Hkey. cbn zeta.
  unfold Spec.checkAndReserve. cbn zeta.
  set (w := rl_openai (rateLimits s)).
  set (now := env_now E (nowCalls s)). set (now' := env_now E (S (nowCalls s))).
  cbn [fst snd after_check rateLimits metrics sent].
  change (rl_openai (update_rateLimit "openai" ?f ?r)) with (f (rl_openai r)).
  change (rl_anthropic (update_rateLimit "openai" ?f ?r)) with (rl_anthropic r).
  cbn beta. fold w now now'. split.
  { split; [by destruct (_ <? _)|]. split.
    { destruct (requests _ <? limit _) eqn:Hroom; cbn [fst].
      - apply Z.ltb_lt in Hroom. by split.
      - apply Z.ltb_ge in Hroom. split; [done|]. intros Hlt. exfalso. lia. }
    split; [done|]. unfold Spec.reset. split.
    { intros Hpast. apply Z.ltb_lt in Hpast. by rewrite Hpast. }
    split; [|done]. intros Hnot. apply Z.ltb_ge in Hnot. by rewrite Hnot. }
  destruct (requests (Spec.reset now now' w) <? limit (Spec.reset now now' w)) eqn:Hroom;
    cbn [fst snd push_sent reserved set_metrics set_rateLimits after_check
         rateLimits metrics sent];
    change (rl_openai (update_rateLimit "openai" ?f ?r)) with (f (rl_openai r));
    change (rl_anthropic (update_rateLimit "openai" ?f ?r)) with (rl_anthropic r);
    cbn beta; fold w now now'.
  - split; [done|]. split; [done|]. split; [done|]. intros [=].
  - split; [done|]. split; [done|]. split; [intros [=]|]. intros _.
    split; [done|]. split; [done|]. split; [done|]. split; [done|].
    intros Hpos. rewrite (denied_positive_limit _ _ _ Hroom Hpos).
    by apply update_rateLimit_id.
Qed.

Lemma callAnthropic_gate E messages model options s :
  gate_contract E (callAnthropic E messages model options) "anthropic"
    "Anthropic rate limit exceeded" anthropicKey rl_anthropic rl_openai s.
Proof.
  intros Hkey. cbn zeta.
  rewrite (checkRateLimit_run E "anthropic" s _ (rateLimit_of_anthropic _)).
  rewrite callAnthropic_run, Hkey. cbn zeta.
  unfold Spec.checkAndReserve. cbn zeta.
  set (w := rl_anthropic (rateLimits s)).
  set (now := env_now E (nowCalls s)). set (now' := env_now E (S (nowCalls s))).
  cbn [fst snd after_check rateLimits metrics sent].
  change (rl_anthropic (update_rateLimit "anthropic" ?f ?r)) with (f (rl_anthropic r)).
  change (rl_openai (update_rateLimit "anthropic" ?f ?r)) with (rl_openai r).
  cbn beta. fold w now now'. split.
  { split; [by destruct (_ <? _)|]. split.
    { destruct (requests _ <? limit _) eqn:Hroom; cbn [fst].
      - apply Z.ltb_lt in Hroom. by split.
      - apply Z.ltb_ge in Hroom. split; [done|]. intros Hlt. exfalso. lia. }
    split; [done|]. unfold Spec.reset. split.
    { intros Hpast. apply Z.ltb_lt in Hpast. by rewrite Hpast. }
    split; [|done]. intros Hnot. apply Z.ltb_ge in Hnot. by rewrite Hnot. }
  destruct (requests (Spec.reset now now' w) <? limit (Spec.reset now now' w)) eqn:Hroom.
  - destruct (all_defined messages);
      cbn [fst snd push_sent reserved set_metrics set_rateLimits after_check
           rateLimits metrics sent];
      change (rl_anthropic (update_rateLimit "anthropic" ?f ?r)) with (f (rl_anthropic r));
      change (rl_openai (update_rateLimit "anthropic" ?f ?r)) with (rl_openai r);
      cbn beta; fold w now now';
      (split; [done|]); (split; [done|]); (split; [done|]); intros [=].
  - cbn [fst snd after_check rateLimits metrics sent].
    change (rl_anthropic (update_rateLimit "anthropic" ?f ?r)) with (f (rl_anthropic r)).
    change (rl_openai (update_rateLimit "anthropic" ?f ?r)) with (rl_openai r).
    cbn beta. fold w now now'.
    split; [done|]. split; [done|]. split; [intros [=]|]. intros _.
    split; [done|]. split; [done|]. split; [done|]. split; [done|].
    intros Hpos. rewrite (denied_positive_limit _ _ _ Hroom Hpos).
    by apply update_rateLimit_id.
Qed.

(** C3.  The admission gate of both adapters meets the check-and-reserve
    contract of the rate limiter, read on the fields of the provider's
    window: a window whose reset time has passed is reset to count 0 and
    reset time now+60000 before the comparison, and is left alone if not;
    [checkRateLimit] answers true iff count < limit, and the adapter then
    adds one to the count; a denied call throws the rate-limit error, sends
    no request, counts nothing and leaves the window as the check left it,
    which is the window before the call when the limit is positive.  The
    other provider's window is never written. *)
Theorem rate_limiter_check_and_reserve E messages model options s :
  gate_contract E (callOpenAI E messages model options) "openai"
    "OpenAI rate limit exceeded" openaiKey rl_openai rl_anthropic s
  /\ gate_contract E (callAnthropic E messages model options) "anthropic"
       "Anthropic rate limit exceeded" anthropicKey rl_anthropic rl_openai s.
Proof. split; [apply callOpenAI_gate | apply callAnthropic_gate]. Qed.

Lemma rate_limiter_check_and_reserve_witness :
  let s := Scenario.limit1 Scenario.E_up in
  let s' := (callOpenAI Scenario.E_up [] "gpt-4" [] s).2 in
  requests (rl_openai (rateLimits s)) = 0
  /\ requests (rl_openai (rateLimits s')) = 1
  /\ rl_anthropic (rateLimits s') = rl_anthropic (rateLimits s).
Proof.
  intros s s'.
  destruct (rate_limiter_check_and_reserve Scenario.E_up [] "gpt-4" [] s) as [H _].
  destruct (H eq_refl) as (_ & _ & Hother & Hcount & _).
  split; [reflexivity|]. split; [|exact Hother].
  exact (proj1 (Hcount eq_refl)).
Defined.

(** With limit 1 the first call is accepted, the next ones are denied and
    change nothing, and once the clock has passed the reset time a call is
    accepted again in a fresh window. *)
Example limit_one_scenario :
  let E := Scenario.E_up in
  let call := callOpenAI E [] "gpt-4" [] in
  let r1 := call (Scenario.limit1 E) in
  let r2 := call r1.2 in
  let r3 := call r2.2 in
  let r4 := call r3.2 in
  (exists v, r1.1 = Return v)
  /\ rl_openai (rateLimits r1.2) = {| requests := 1; resetTime := 61000; limit := 1 |}
  /\ r2.1 = Throw (Error "OpenAI rate limit exceeded")
  /\ rateLimits r2.2 = rateLimits r1.2
  /\ r3.1 = Throw (Error "OpenAI rate limit exceeded")
  /\ rateLimits r3.2 = rateLimits r1.2
  /\ (exists v, r4.1 = Return v)
  /\ rl_openai (rateLimits r4.2) = {| requests := 1; resetTime := 130000; limit := 1 |}.
Proof. vm_compute. repeat split; eauto. Qed.

(** ** Missing credentials *)

(** C9.  An adapter whose credential is not configured throws the
    configuration error and leaves the whole state as it was: the rate-limit
    check has not run (no clock reading, no window reset, no quota taken),
    no request was sent and the request counter is unchanged.  Through
    [callAPI] the only change is the error counter. *)
Theorem missing_credential_short_circuits E messages model options s :
  (key_missing (openaiKey s) = true ->
     callOpenAI E messages model options s
       = (Throw (Error "OpenAI API key not configured"), s)
     /\ callAPI E "openai" messages model options s
       = (Throw (Error "OpenAI API key not configured"), set_metrics incr_errors s))
  /\ (key_missing (anthropicKey s) = true ->
     callAnthropic E messages model options s
       = (Throw (Error "Anthropic API key not configured"), s)
     /\ callAPI E "anthropic" messages model options s
       = (Throw (Error "Anthropic API key not configured"), set_metrics incr_errors s)).
Proof.
  split; intros Hkey.
  - assert (Hrun : callOpenAI E messages model options s
                   = (Throw (Error "OpenAI API key not configured"), s))
      by (by rewrite callOpenAI_run, Hkey).
    split; [done|]. unfold callAPI, try_catch.
    rewrite decide_True by done. by rewrite Hrun.
  - assert (Hrun : callAnthropic E messages model options s
                   = (Throw (Error "Anthropic API key not configured"), s))
      by (by rewrite callAnthropic_run, Hkey).
    split; [done|]. unfold callAPI, try_catch.
    rewrite decide_False by done. rewrite decide_True by done. by rewrite Hrun.
Qed.

Lemma missing_credential_short_circuits_witness :
  let s := Scenario.openai_only Scenario.E_up in
  callAnthropic Scenario.E_up [] "claude-3-5-sonnet-20241022" [] s
    = (Throw (Error "Anthropic API key not configured"), s)
  /\ rateLimits (callAPI Scenario.E_up "anthropic" [] "claude-3-5-sonnet-20241022" [] s).2
     = rateLimits s.
Proof.
  intros s.
  destruct (missing_credential_short_circuits Scenario.E_up []
              "claude-3-5-sonnet-20241022" [] s) as [_ H].
  destruct H as [H1 H2]; [reflexivity|].
  split; [exact H1 | by rewrite H2].
Defined.

(** ** The request counters *)

(** A call refused by the provider has been counted. *)
Lemma failed_call_is_counted :
  ~ (forall E messages model options s,
       openaiRequests (metrics (callOpenAI E messages model options s).2)
       = openaiRequests (metrics s)
         + match (callOpenAI E messages model options s).1 with
           | Return _ => 1
           | Throw _ => 0
           end).
Proof.
  intros H.
  specialize (H Scenario.E_down [] "gpt-4" [] (Scenario.openai_only Scenario.E_down)).
  vm_compute in H. discriminate H.
Qed.

Example failed_call_run :
  let s := Scenario.openai_only Scenario.E_down in
  let r := callOpenAI Scenario.E_down [] "gpt-4" [] s in
  r.1 = Throw (Error "OpenAI API error: 503 Service Unavailable")
  /\ openaiRequests (metrics s) = 0
  /\ openaiRequests (metrics r.2) = 1.
Proof. vm_compute. done. Qed.

(** C7, amended.  Each adapter increments its provider's request counter
    once for every call that passes the credential test and the rate
    limiter, before the request is sent and whatever the outcome of the
    request; a call stopped by either gate leaves the counter unchanged,
    and no call touches the other provider's counter. *)
Theorem request_counter_counts_issued_requests E messages model options s :
  let now := env_now E (nowCalls s) in
  let now' := env_now E (S (nowCalls s)) in
  let passes (key : option string) (w : RateLimit) : Z :=
    if key_missing key then 0
    else if (Spec.checkAndReserve now now' w).1 then 1 else 0 in
  let a := callOpenAI E messages model options s in
  let b := callAnthropic E messages model options s in
  (openaiRequests (metrics a.2)
     = openaiRequests (metrics s) + passes (openaiKey s) (rl_openai (rateLimits s))
   /\ anthropicRequests (metrics a.2) = anthropicRequests (metrics s))
  /\ (anthropicRequests (metrics b.2)
        = anthropicRequests (metrics s)
          + passes (anthropicKey s) (rl_anthropic (rateLimits s))
      /\ openaiRequests (metrics b.2) = openaiRequests (metrics s)).
Proof.
  cbn zeta. unfold Spec.checkAndReserve. cbn zeta.
  rewrite callOpenAI_run, callAnthropic_run. cbn zeta.
  split.
  - destruct (key_missing (openaiKey s)); cbn; [lia|].
    destruct (requests _ <? limit _); cbn; lia.
  - destruct (key_missing (anthropicKey s)); cbn; [lia|].
    destruct (requests _ <? limit _); cbn; [|lia].
    destruct (all_defined messages); cbn; lia.
Qed.

(** ** Agent creation *)

Lemma createAgent_run E config s :
  let agent :=
    {| ag_id := env_uuid E (uuidCalls s);
       ag_name := str_or (cfg_name config) "Agent";
       ag_role := str_or (cfg_role config) "Assistant";
       ag_provider := str_or (cfg_provider config) "openai";
       ag_model :=
         str_or (cfg_model config)
           (if decide (cfg_provider config = Some "anthropic")
            then "claude-3-5-sonnet-20241022" else "gpt-4");
       ag_instructions :=
         str_or (cfg_instructions config) "You are a helpful AI assistant.";
       ag_memory := [];
       ag_created := env_now E (nowCalls s) |} in
  createAgent E config s =
    (Return agent,
     {| openaiKey := openaiKey s; anthropicKey := anthropicKey s;
        rateLimits := rateLimits s; metrics := metrics s;
        agents := <[ag_id agent := agent]> (agents s);
        nowCalls := S (nowCalls s); uuidCalls := S (uuidCalls s); sent := sent s |}).
Proof. reflexivity. Qed.

(** A provider that is not supported is stored as given. *)
Lemma unknown_provider_is_kept :
  ~ (forall E config s agent s',
       cfg_provider config <> Some "openai" ->
       cfg_provider config <> Some "anthropic" ->
       createAgent E config s = (Return agent, s') ->
       ag_provider agent = "openai" \/ ag_provider agent = "anthropic").
Proof.
  intros H.
  destruct (H Scenario.E_up
              {| cfg_name := Some "Critic"; cfg_role := None;
                 cfg_provider := Some "gemini"; cfg_model := None;
                 cfg_instructions := None |}
              (Scenario.openai_only Scenario.E_up) _ _
              ltac:(discriminate) ltac:(discriminate) eq_refl)
    as [Hp|Hp]; vm_compute in Hp; discriminate Hp.
Qed.

(** C6, amended.  [createAgent] never throws and registers the agent it
    returns, with an empty memory.  The provider falls back to "openai" only
    when the configuration has no provider or an empty one; any other value,
    supported or not, is stored as given, and the default model is then
    "gpt-4" unless the provider is "anthropic". *)
Theorem createAgent_provider_default E config s :
  exists agent s',
    createAgent E config s = (Return agent, s')
    /\ agents s' !! ag_id agent = Some agent
    /\ ag_memory agent = []
    /\ (cfg_provider config = None \/ cfg_provider config = Some "" ->
          ag_provider agent = "openai")
    /\ (forall p, cfg_provider config = Some p -> p <> "" ->
          ag_provider agent = p
          /\ (cfg_model config = None ->
                ag_model agent
                = if decide (p = "anthropic")
                  then "claude-3-5-sonnet-20241022" else "gpt-4")).
Proof.
  eexists _, _. split; [apply createAgent_run|]. cbn.
  split; [apply lookup_insert_eq|]. split; [done|]. split.
  - by intros [-> | ->].
  - intros p -> Hp. cbn. rewrite decide_False by done. split; [done|].
    intros ->. cbn. by repeat case_decide; simplify_eq.
Qed.

Lemma createAgent_provider_default_witness :
  exists agent s',
    createAgent Scenario.E_up (Scenario.config_of "Cy" "gemini")
      (Scenario.openai_only Scenario.E_up) = (Return agent, s')
    /\ ag_provider agent = "gemini".
Proof.
  destruct (createAgent_provider_default Scenario.E_up
              (Scenario.config_of "Cy" "gemini") (Scenario.openai_only Scenario.E_up))
    as (agent & s' & Hrun & _ & _ & _ & Hp).
  exists agent, s'. split; [exact Hrun|].
  exact (proj1 (Hp "gemini" eq_refl ltac:(discriminate))).
Defined.

(** An agent whose provider is not supported is turned down when it is
    called: [callAPI] throws before any adapter runs. *)
Lemma callAPI_unsupported E provider messages model options s :
  provider <> "openai" -> provider <> "anthropic" ->
  callAPI E provider messages model options s
  = (Throw (Error ("Unsupported provider: " +:+ provider)), set_metrics incr_errors s).
Proof.
  intros H1 H2. unfold callAPI, try_catch.
  by rewrite !decide_False by done.
Qed.

(** ** Running an agent *)

Lemma callOpenAI_agents E messages model options s :
  agents (callOpenAI E messages model options s).2 = agents s.
Proof.
  rewrite callOpenAI_run. cbn zeta.
  destruct (key_missing _); [done|]. by destruct (requests _ <? limit _).
Qed.

Lemma callAnthropic_agents E messages model options s :
  agents (callAnthropic E messages model options s).2 = agents s.
Proof.
  rewrite callAnthropic_run. cbn zeta.
  destruct (key_missing _); [done|]. destruct (requests _ <? limit _); [|done].
  by destruct (all_defined messages).
Qed.

(** The client never touches the registry. *)
Lemma callAPI_agents E provider messages model options s :
  agents (callAPI E provider messages model options s).2 = agents s.
Proof.
  unfold callAPI, try_catch. repeat case_decide.
  - pose proof (callOpenAI_agents E messages model options s) as Hag.
    by destruct (callOpenAI E messages model options s) as [[v|e] s1].
  - pose proof (callAnthropic_agents E messages model options s) as Hag.
    by destruct (callAnthropic E messages model options s) as [[v|e] s1].
  - done.
Qed.

(** Case analysis on the outcome of the [callAPI] in the goal, with the
    fact that it left the registry alone. *)
Ltac case_callAPI response e s1 Hcall :=
  match goal with
  | |- context [callAPI ?E ?p ?ms ?m ?o ?s] =>
      pose proof (callAPI_agents E p ms m o s) as Hcall;
      destruct (callAPI E p ms m o s) as [[response|e] s1];
      cbn in Hcall
  end.

(** [executeAgent] in one equation. *)
Lemma executeAgent_run E agentId message options s :
  executeAgent E agentId message options s =
    match agents s !! agentId with
    | None => (Throw (Error "Agent not found"), s)
    | Some agent =>
        let messages :=
          [Some {| msg_role := "system"; msg_content := ag_instructions agent |}]
          ++ ag_memory agent
          ++ [Some {| msg_role := "user"; msg_content := message |}] in
        match callAPI E (ag_provider agent) messages (ag_model agent)
                (default [] options) s with
        | (Throw e, s1) => (Throw e, s1)
        | (Return response, s1) =>
            match rj_choices response with
            | None => (Throw (type_error_reading "undefined" "0"), s1)
            | Some [] => (Throw (type_error_reading "undefined" "message"), s1)
            | Some (c :: _) =>
                let s2 :=
                  set_agents (insert agentId
                    (set_memory
                       (push_and_limit (ag_memory agent) message (ch_message c))
                       agent)) s1 in
                match ch_message c with
                | None => (Throw (type_error_reading "undefined" "content"), s2)
                | Some m =>
                    (Return
                       {| res_agent :=
                            {| sum_id := ag_id agent; sum_name := ag_name agent;
                               sum_role := ag_role agent;
                               sum_provider := ag_provider agent |};
                          res_response := msg_content m;
                          res_usage := rj_usage response |}, s2)
                end
            end
        end
    end.
Proof.
  unfold executeAgent, bind, gets, modify, first_message, ret, throw. cbn.
  destruct (agents s !! agentId) as [agent|]; [|done].
  destruct (callAPI _ _ _ _ _ _) as [[response|e] s1]; [|done].
  destruct (rj_choices response) as [[|c cs]|]; [done| |done].
  by destruct (ch_message c).
Qed.

(** ** The collaboration loop *)

(** The state after one more reading of the clock. *)
Lemma Date_now_run E s : Date_now E s = (Return (env_now E (nowCalls s)), (Date_now E s).2).
Proof. reflexivity. Qed.

(** One turn in one equation: it never throws and appends one record. *)
Lemma turn_run E agentIds i agentId l s :
  turn E agentIds i agentId l s =
    match executeAgent E agentId (currentMessage l) None s with
    | (Return result, s1) =>
        let conv' := conv l ++ [TurnResponse (i + 1) (env_now E (nowCalls s1)) result] in
        (Return {| conv := conv'; currentMessage := digest agentIds conv' |},
         (Date_now E s1).2)
    | (Throw e, s1) =>
        (Return {| conv := conv l ++ [TurnError (i + 1) (env_now E (nowCalls s1)) agentId
                                        (error_message e)];
                   currentMessage := currentMessage l |},
         (Date_now E s1).2)
    end.
Proof.
  unfold turn, try_catch. rewrite bind_run.
  by destruct (executeAgent _ _ _ _ _) as [[result|e] s1].
Qed.

(** The inner loop never throws and records one turn per agent. *)
Lemma round_run E agentIds i todo l s :
  exists l' s',
    round E agentIds i todo l s = (Return l', s')
    /\ map turn_iteration (conv l')
       = map turn_iteration (conv l) ++ replicate (length todo) (i + 1).
Proof.
  revert l s. induction todo as [|agentId todo IH]; intros l s; cbn.
  - eexists _, _. split; [done|]. by rewrite app_nil_r.
  - rewrite bind_run, turn_run.
    destruct (executeAgent _ _ _ _ _) as [[result|e] s1]; cbn beta iota zeta;
      match goal with |- context [round _ _ _ _ ?l1 ?s1] =>
        destruct (IH l1 s1) as (l' & s' & -> & Hit) end;
      eexists _, _; (split; [done|]);
      rewrite Hit; cbn; rewrite map_app; cbn; by rewrite <- app_assoc.
Qed.

(** The outer loop never throws and records [n] rounds. *)
Lemma rounds_run E agentIds n i l s :
  exists l' s',
    rounds E agentIds n i l s = (Return l', s')
    /\ map turn_iteration (conv l')
       = map turn_iteration (conv l) ++ round_numbers (length agentIds) n i.
Proof.
  revert i l s. induction n as [|n IH]; intros i l s; cbn.
  - eexists _, _. split; [done|]. by rewrite app_nil_r.
  - rewrite bind_run.
    destruct (round_run E agentIds i agentIds l s) as (l1 & s1 & -> & Hit1).
    destruct (IH (i + 1) l1 s1) as (l' & s' & -> & Hit).
    eexists _, _. split; [done|]. by rewrite Hit, Hit1, <- app_assoc.
Qed.

Lemma round_numbers_length k n i : length (round_numbers k n i) = (k * n)%nat.
Proof.
  revert i. induction n as [|n IH]; intros i; cbn; [lia|].
  rewrite length_app, length_replicate, IH. lia.
Qed.

Lemma collaborateAgents_run E agentIds goal iterations s :
  exists c s',
    collaborateAgents E agentIds goal iterations s = (Return c, s')
    /\ col_agents c = agentIds /\ col_goal c = goal
    /\ map turn_iteration (conversation c)
       = round_numbers (length agentIds) (Z.to_nat iterations) 0
    /\ completed c = Some (env_now E (Nat.pred (nowCalls s'))).
Proof.
  unfold collaborateAgents, bind, uuidv4, Date_now, ret. cbn.
  match goal with |- context [rounds _ _ _ _ ?l0 ?s0] =>
    destruct (rounds_run E agentIds (Z.to_nat iterations) 0 l0 s0)
      as (l' & s' & -> & Hit) end.
  eexists _, _. split; [reflexivity|]. cbn. by rewrite Hit.
Qed.

(** *** The turns of a run, one by one *)

Lemma Turns_app E agentIds todo1 todo2 l s log1 l1 s1 log2 l2 s2 :
  Turns E agentIds todo1 l s log1 l1 s1 ->
  Turns E agentIds todo2 l1 s1 log2 l2 s2 ->
  Turns E agentIds (todo1 ++ todo2) l s (log1 ++ log2) l2 s2.
Proof.
  induction 1 as [l s|i agentId todo l s result s0 log l' s' Hrun _ IH
                 |i agentId todo l s e s0 log l' s' Hrun _ IH]; intros Hrest; cbn.
  - done.
  - eapply turns_returned; [exact Hrun | by apply IH].
  - eapply turns_threw; [exact Hrun | by apply IH].
Qed.

(** The records of the turns are appended to the conversation in order. *)
Lemma Turns_conv E agentIds todo l s log l' s' :
  Turns E agentIds todo l s log l' s' -> conv l' = conv l ++ map snd log.
Proof.
  induction 1 as [l s|i agentId todo l s result s0 log l' s' _ _ IH
                 |i agentId todo l s e s0 log l' s' _ _ IH]; cbn.
  - by rewrite app_nil_r.
  - rewrite IH. cbn. by rewrite <- app_assoc.
  - rewrite IH. cbn. by rewrite <- app_assoc.
Qed.

(** One record per turn, numbered by its iteration. *)
Lemma Turns_iterations E agentIds todo l s log l' s' :
  Turns E agentIds todo l s log l' s' ->
  map (fun x => turn_iteration x.2) log = map (fun x => x.1 + 1) todo.
Proof.
  induction 1 as [l s|i agentId todo l s result s0 log l' s' _ _ IH
                 |i agentId todo l s e s0 log l' s' _ _ IH]; cbn;
    [done | by rewrite IH | by rewrite IH].
Qed.

Lemma Turns_length E agentIds todo l s log l' s' :
  Turns E agentIds todo l s log l' s' -> length log = length todo.
Proof.
  intros H%Turns_iterations. by rewrite <- (length_map (fun x => x.1 + 1)), <- H, length_map.
Qed.

Lemma schedule_iterations agentIds n i :
  map (fun x => x.1 + 1) (schedule agentIds n i) = round_numbers (length agentIds) n i.
Proof.
  revert i. induction n as [|n IH]; intros i; cbn; [done|].
  rewrite map_app, IH. f_equal. clear IH.
  induction agentIds as [|a agentIds IHa]; cbn; [done|]. by rewrite IHa.
Qed.

Lemma schedule_length agentIds n i :
  length (schedule agentIds n i) = (length agentIds * n)%nat.
Proof.
  by rewrite <- (length_map (fun x => x.1 + 1)), schedule_iterations, round_numbers_length.
Qed.

(** The first of the turns is the call of [executeAgent] on the current
    prompt, recorded according to its outcome. *)
Lemma Turns_first E agentIds i agentId todo l s log l' s' :
  Turns E agentIds ((i, agentId) :: todo) l s log l' s' ->
  exists r rest,
    log = (currentMessage l, r) :: rest
    /\ match executeAgent E agentId (currentMessage l) None s with
       | (Return result, s1) =>
           r = TurnResponse (i + 1) (env_now E (nowCalls s1)) result
           /\ Turns E agentIds todo
                {| conv := conv l ++ [r]; currentMessage := digest agentIds (conv l ++ [r]) |}
                (tick s1) rest l' s'
       | (Throw e, s1) =>
           r = TurnError (i + 1) (env_now E (nowCalls s1)) agentId (error_message e)
           /\ Turns E agentIds todo
                {| conv := conv l ++ [r]; currentMessage := currentMessage l |}
                (tick s1) rest l' s'
       end.
Proof.
  inversion 1 as [|? ? ? ? ? result s1 rest ? ? Hrun Hrest
                  |? ? ? ? ? e s1 rest ? ? Hrun Hrest]; subst;
    eexists _, _; (split; [reflexivity|]); by rewrite Hrun.
Qed.

(** The inner loop takes the turns of its agents. *)
Lemma round_turns E agentIds i todo l s :
  exists log l' s',
    round E agentIds i todo l s = (Return l', s')
    /\ Turns E agentIds (map (pair i) todo) l s log l' s'.
Proof.
  revert l s. induction todo as [|agentId todo IH]; intros l s; cbn [round map].
  - eexists _, _, _. split; [reflexivity | constructor].
  - rewrite bind_run, turn_run.
    destruct (executeAgent E agentId (currentMessage l) None s) as [[result|e] s1] eqn:Hrun;
      cbn beta iota zeta; change ((Date_now E s1).2) with (tick s1);
      match goal with |- context [round _ _ _ _ ?l1 ?s1] =>
        destruct (IH l1 s1) as (log & l' & s' & -> & Hturns) end;
      eexists _, _, _; (split; [reflexivity|]).
    + by eapply turns_returned.
    + by eapply turns_threw.
Qed.

(** The outer loop takes the turns of the schedule. *)
Lemma rounds_turns E agentIds n i l s :
  exists log l' s',
    rounds E agentIds n i l s = (Return l', s')
    /\ Turns E agentIds (schedule agentIds n i) l s log l' s'.
Proof.
  revert i l s. induction n as [|n IH]; intros i l s; cbn [rounds schedule].
  - eexists _, _, _. split; [reflexivity | constructor].
  - rewrite bind_run.
    destruct (round_turns E agentIds i agentIds l s) as (log1 & l1 & s1 & -> & H1).
    destruct (IH (i + 1) l1 s1) as (log2 & l2 & s2 & -> & H2).
    eexists _, _, _. split; [reflexivity|]. by eapply Turns_app.
Qed.

(** A run is its record around the turns of the schedule, taken from the
    initial prompt after one identifier was drawn and the clock read once;
    the clock is read once more at the end. *)
Lemma collaborateAgents_turns E agentIds goal iterations s :
  exists c log l' s1,
    collaborateAgents E agentIds goal iterations s = (Return c, tick s1)
    /\ Turns E agentIds (schedule agentIds (Z.to_nat iterations) 0)
         {| conv := []; currentMessage := initial_message goal |}
         (tick (drawn s)) log l' s1
    /\ conversation c = map snd log
    /\ col_id c = env_uuid E (uuidCalls s) /\ col_goal c = goal
    /\ col_agents c = agentIds
    /\ started c = env_now E (nowCalls s)
    /\ completed c = Some (env_now E (nowCalls s1)).
Proof.
  destruct (rounds_turns E agentIds (Z.to_nat iterations) 0
              {| conv := []; currentMessage := initial_message goal |} (tick (drawn s)))
    as (log & l' & s1 & Hrun & Hturns).
  pose proof (Turns_conv _ _ _ _ _ _ _ _ Hturns) as Hconv. cbn in Hconv.
  unfold collaborateAgents. rewrite !bind_run.
  change (uuidv4 E s) with (Return (env_uuid E (uuidCalls s)), drawn s).
  cbn beta iota. rewrite bind_run.
  change (Date_now E (drawn s)) with (Return (env_now E (nowCalls s)), tick (drawn s)).
  cbn beta iota. rewrite bind_run, Hrun. cbn beta iota. rewrite bind_run.
  change (Date_now E s1) with (Return (env_now E (nowCalls s1)), tick s1).
  cbn beta iota.
  eexists _, log, l', s1. split; [reflexivity|]. split; [exact Hturns|]. by cbn.
Qed.

(** C1.  A run never aborts: [collaborateAgents] returns, its completion
    time set, and its conversation is the list of the records of the turns
    of the schedule, every agent in every iteration, each turn being one
    call of [executeAgent] from the state the turn before it left.  A call
    that throws is recorded by the error record of its iteration and agent
    with the message of the error, and the next turn is taken; a call that
    returns is recorded with its result.  There are as many records as
    agents times iterations, in iteration order. *)
Theorem partial_failure_isolation E agentIds goal iterations s :
  exists c s' log l' s1,
    collaborateAgents E agentIds goal iterations s = (Return c, s')
    /\ Turns E agentIds (schedule agentIds (Z.to_nat iterations) 0)
         {| conv := []; currentMessage := initial_message goal |}
         (tick (drawn s)) log l' s1
    /\ conversation c = map snd log
    /\ length (conversation c) = (length agentIds * Z.to_nat iterations)%nat
    /\ map turn_iteration (conversation c)
       = round_numbers (length agentIds) (Z.to_nat iterations) 0
    /\ completed c = Some (env_now E (nowCalls s1))
    /\ s' = tick s1.
Proof.
  destruct (collaborateAgents_turns E agentIds goal iterations s)
    as (c & log & l' & s1 & Hrun & Hturns & Hconv & _ & _ & _ & _ & Hdone).
  exists c, (tick s1), log, l', s1.
  split; [done|]. split; [done|]. split; [done|].
  split.
  { by rewrite Hconv, length_map, (Turns_length _ _ _ _ _ _ _ _ Hturns), schedule_length. }
  split; [|done].
  rewrite Hconv, map_map.
  by rewrite (Turns_iterations _ _ _ _ _ _ _ _ Hturns), schedule_iterations.
Qed.

Lemma rounds_nil E n i l s : rounds E [] n i l s = (Return l, s).
Proof.
  revert i. induction n as [|n IH]; intros i; [done|].
  change (rounds E [] (S n) i l s) with (rounds E [] n (i + 1) l s). apply IH.
Qed.

(** C10.  With no participants [collaborateAgents] returns, for every goal
    and every iteration count, a run without turn records whose completion
    time is set; it calls no agent and sends nothing. *)
Theorem collaborate_empty E goal iterations s :
  exists c s',
    collaborateAgents E [] goal iterations s = (Return c, s')
    /\ conversation c = []
    /\ completed c = Some (env_now E (S (nowCalls s)))
    /\ agents s' = agents s /\ sent s' = sent s /\ rateLimits s' = rateLimits s.
Proof.
  unfold collaborateAgents, bind, uuidv4, Date_now, ret. cbn.
  rewrite rounds_nil. eexists _, _. split; [reflexivity|]. done.
Qed.

(** Three agents of which the second always fails, two iterations: six
    records, the second agent's two carrying the error message, the other
    four a response. *)
Example three_agents_scenario :
  exists c s',
    Scenario.three_agents Scenario.E_up (Scenario.openai_only Scenario.E_up)
    = (Return c, s')
    /\ map (fun r => (turn_iteration r, turn_agent_id r, turn_response r, turn_error r))
         (conversation c)
       = [(1, "agent-0", Some "reply 0", None);
          (1, "agent-1", None, Some "Anthropic API key not configured");
          (1, "agent-2", Some "reply 1", None);
          (2, "agent-0", Some "reply 2", None);
          (2, "agent-1", None, Some "Anthropic API key not configured");
          (2, "agent-2", Some "reply 3", None)]
    /\ completed c = Some 70000.
Proof. eexists _, _. split; [vm_compute; reflexivity|]. vm_compute. done. Qed.

(** ** Agent memory *)

Lemma slice_negative {A} (start : Z) (l : list A) :
  start < 0 -> slice start l = drop (length l - Z.to_nat (- start)) l.
Proof.
  intros Hn. unfold slice.
  destruct (start <? 0) eqn:Hneg; [|apply Z.ltb_ge in Hneg; lia].
  f_equal. lia.
Qed.

(** The update keeps the last 20 entries of the extended memory. *)
Lemma push_and_limit_drop memory message assistantMessage :
  push_and_limit memory message assistantMessage
  = drop (length memory + 2 - 20)
      (memory ++ exchange_entries (message, assistantMessage)).
Proof.
  unfold push_and_limit, exchange_entries. cbn.
  set (l := memory ++ _).
  assert (Hl : length l = (length memory + 2)%nat)
    by (subst l; rewrite length_app; cbn; lia).
  destruct (20 <? Z.of_nat (length l)) eqn:Hlen.
  - apply Z.ltb_lt in Hlen.
    rewrite slice_negative by lia. f_equal. lia.
  - apply Z.ltb_ge in Hlen.
    replace (length memory + 2 - 20)%nat with 0%nat by lia. done.
Qed.

Lemma push_and_limit_length memory message assistantMessage :
  (length (push_and_limit memory message assistantMessage) <= 20)%nat.
Proof.
  rewrite push_and_limit_drop, length_drop, length_app. cbn. lia.
Qed.

Lemma push_and_limit_short memory message assistantMessage :
  (length memory <= 18)%nat ->
  push_and_limit memory message assistantMessage
  = memory ++ exchange_entries (message, assistantMessage).
Proof.
  intros Hlen. rewrite push_and_limit_drop.
  by replace (length memory + 2 - 20)%nat with 0%nat by lia.
Qed.

(** The entries dropped are the oldest ones of the memory, never the two
    just appended. *)
Lemma push_and_limit_fifo memory message assistantMessage :
  let k := (length memory + 2 - 20)%nat in
  (k <= length memory)%nat
  /\ push_and_limit memory message assistantMessage
     = drop k memory ++ exchange_entries (message, assistantMessage).
Proof.
  cbn zeta. split; [lia|].
  rewrite push_and_limit_drop. apply drop_app_le. lia.
Qed.

Lemma exchange_all_drop memory xs :
  (length memory <= 20)%nat ->
  let all := memory ++ concat (map exchange_entries xs) in
  exchange_all memory xs = drop (length all - 20) all.
Proof.
  revert memory. induction xs as [|x xs IH]; intros memory Hlen; cbn zeta.
  - cbn. rewrite app_nil_r.
    by replace (length memory - 20)%nat with 0%nat by lia.
  - cbn [exchange_all fold_left map concat].
    change (fold_left _ xs ?m) with (exchange_all m xs).
    rewrite (IH _ (push_and_limit_length _ _ _)). cbn zeta.
    destruct (push_and_limit_fifo memory x.1 x.2) as [Hk ->].
    destruct x as [message am]. cbn [fst snd].
    set (e := exchange_entries (message, am)).
    set (rest := concat (map exchange_entries xs)).
    rewrite <- !app_assoc.
    rewrite <- (drop_app_le memory (e ++ rest)) by lia.
    rewrite drop_drop. f_equal.
    rewrite length_drop, !length_app.
    assert (length e = 2%nat) by done. lia.
Qed.

Lemma exchange_entries_length xs :
  length (concat (map exchange_entries xs)) = (2 * length xs)%nat.
Proof. induction xs as [|x xs IH]; cbn; [done|]. rewrite IH. lia. Qed.

(** Either the registry is as before and the call threw, or the agent's
    entry was replaced by the agent with its memory updated. *)
Lemma executeAgent_agents E agentId message options s :
  let run := executeAgent E agentId message options s in
  (agents run.2 = agents s /\ exists e, run.1 = Throw e)
  \/ exists agent assistantMessage,
       agents s !! agentId = Some agent
       /\ agents run.2
          = <[agentId := set_memory
                (push_and_limit (ag_memory agent) message assistantMessage) agent]>
              (agents s).
Proof.
  cbn zeta. rewrite executeAgent_run.
  destruct (agents s !! agentId) as [agent|] eqn:Hag; [|left; eauto].
  cbn zeta.
  case_callAPI response e s1 Hcall; [|left; eauto].
  destruct (rj_choices response) as [[|c cs]|]; [left; eauto | | left; eauto].
  right. exists agent, (ch_message c). split; [done|].
  destruct (ch_message c); cbn; by rewrite Hcall.
Qed.

Lemma keeps_bind {A B} (I : Proc -> Prop) (m : M A) (k : A -> M B) :
  keeps I m -> (forall a, keeps I (k a)) -> keeps I (bind m k).
Proof.
  intros Hm Hk s Hs. unfold bind. specialize (Hm s Hs).
  destruct (m s) as [[a|e] s1]; cbn in *; [by apply Hk | done].
Qed.

Lemma keeps_try_catch {A} (I : Proc -> Prop) (m : M A) (h : JsError -> M A) :
  keeps I m -> (forall e, keeps I (h e)) -> keeps I (try_catch m h).
Proof.
  intros Hm Hh s Hs. unfold try_catch. specialize (Hm s Hs).
  destruct (m s) as [[a|e] s1]; cbn in *; [done | by apply Hh].
Qed.

Lemma keeps_memory_bounded {A} (m : M A) :
  (forall s, agents (m s).2 = agents s) -> keeps memory_bounded m.
Proof. intros Hm s Hs id agent. rewrite Hm. apply Hs. Qed.

Lemma createAgent_bounded E config : keeps memory_bounded (createAgent E config).
Proof.
  intros s Hs id agent. rewrite createAgent_run. cbn.
  rewrite lookup_insert. case_decide.
  - intros [= <-]. cbn. lia.
  - apply Hs.
Qed.

Lemma executeAgent_bounded E agentId message options :
  keeps memory_bounded (executeAgent E agentId message options).
Proof.
  intros s Hs id agent.
  destruct (executeAgent_agents E agentId message options s)
    as [[-> _] | (a & am & _ & ->)]; [apply Hs|].
  rewrite lookup_insert. case_decide.
  - intros [= <-]. cbn. apply push_and_limit_length.
  - apply Hs.
Qed.

Lemma turn_bounded E agentIds i agentId l :
  keeps memory_bounded (turn E agentIds i agentId l).
Proof.
  apply keeps_try_catch.
  - apply keeps_bind; [apply executeAgent_bounded|]. intros result.
    apply keeps_bind; [by apply keeps_memory_bounded|]. intros t.
    by apply keeps_memory_bounded.
  - intros e. apply keeps_bind; [by apply keeps_memory_bounded|]. intros t.
    by apply keeps_memory_bounded.
Qed.

Lemma round_bounded E agentIds i todo l :
  keeps memory_bounded (round E agentIds i todo l).
Proof.
  revert l. induction todo as [|agentId todo IH]; intros l; cbn.
  - by apply keeps_memory_bounded.
  - apply keeps_bind; [apply turn_bounded | apply IH].
Qed.

Lemma rounds_bounded E agentIds n i l :
  keeps memory_bounded (rounds E agentIds n i l).
Proof.
  revert i l. induction n as [|n IH]; intros i l; cbn.
  - by apply keeps_memory_bounded.
  - apply keeps_bind; [apply round_bounded | intros l'; apply IH].
Qed.

Lemma collaborateAgents_bounded E agentIds goal iterations :
  keeps memory_bounded (collaborateAgents E agentIds goal iterations).
Proof.
  apply keeps_bind; [by apply keeps_memory_bounded|]. intros id.
  apply keeps_bind; [by apply keeps_memory_bounded|]. intros t0.
  apply keeps_bind; [apply rounds_bounded|]. intros l.
  apply keeps_bind; [by apply keeps_memory_bounded|]. intros t1.
  by apply keeps_memory_bounded.
Qed.

(** What a call of [executeAgent] that returns has done to the registry:
    the agent's entry holds the updated memory, ending with the message
    whose content is the response, and no other entry has changed. *)
Lemma executeAgent_returns E agentId message options s agent result :
  agents s !! agentId = Some agent ->
  (executeAgent E agentId message options s).1 = Return result ->
  exists reply,
    msg_content reply = res_response result
    /\ agents (executeAgent E agentId message options s).2
       = <[agentId := set_memory
             (push_and_limit (ag_memory agent) message (Some reply)) agent]> (agents s).
Proof.
  intros Hag. rewrite executeAgent_run, Hag. cbn zeta.
  case_callAPI response e s1 Hcall; [|done].
  destruct (rj_choices response) as [[|c cs]|]; [done| |done].
  destruct (ch_message c) as [reply|]; [|done].
  cbn. intros [= <-]. exists reply. by rewrite Hcall.
Qed.

Lemma appended_entries messages replies :
  concat (map exchange_entries (zip messages (map Some replies)))
  = appended messages replies.
Proof.
  unfold appended. revert replies.
  induction messages as [|m messages IH]; intros [|r replies]; cbn; try done.
  by rewrite IH.
Qed.

Lemma appended_length messages replies :
  length replies = length messages ->
  length (appended messages replies) = (2 * length messages)%nat.
Proof.
  unfold appended. revert replies.
  induction messages as [|m messages IH]; intros [|r replies]; cbn; try done.
  intros [= Hlen]. rewrite (IH _ Hlen). lia.
Qed.

(** A series of exchanges that all return leaves the memory that the
    updates of the single exchanges leave one after the other. *)
Lemma converse_memory E agentId messages :
  forall s agent results,
    agents s !! agentId = Some agent ->
    (converse E agentId messages s).1 = Return results ->
    exists replies,
      map msg_content replies = map res_response results
      /\ length replies = length messages
      /\ ag_memory <$> agents (converse E agentId messages s).2 !! agentId
         = Some (exchange_all (ag_memory agent) (zip messages (map Some replies))).
Proof.
  induction messages as [|message messages IH]; intros s agent results Hag; cbn [converse].
  - intros [= <-]. exists []. cbn. by rewrite Hag.
  - rewrite bind_run.
    pose proof (executeAgent_returns E agentId message None s agent) as Hone.
    destruct (executeAgent E agentId message None s) as [[result|e] s1]; [|done].
    destruct (Hone result Hag eq_refl) as (reply & Hreply & Hs1). cbn [snd] in Hs1.
    rewrite bind_run.
    assert (Hag1 : agents s1 !! agentId
                   = Some (set_memory (push_and_limit (ag_memory agent) message (Some reply))
                             agent))
      by (by rewrite Hs1, lookup_insert_eq).
    pose proof (fun rs => IH s1 _ rs Hag1) as Hrest.
    destruct (converse E agentId messages s1) as [[rs|e] s2]; [|done].
    destruct (Hrest rs eq_refl) as (replies & Hcontents & Hlen & Hmem).
    cbn. intros [= <-]. exists (reply :: replies). cbn.
    rewrite Hreply, Hcontents, Hlen. split; [done|]. split; [done|]. exact Hmem.
Qed.

(** C4.  Every registered agent holds at most 20 entries from the start
    of the process on, whatever is created, executed or run in
    collaboration.  A call of [executeAgent] that returns leaves in the
    registry the agent's old memory without its oldest entries, as many as
    exceed 20 with the two new ones, followed by the user message and the
    reply: entries are dropped from the front only.  After a series of
    exchanges that all return the agent holds the last 20 of all entries,
    old and appended, in order; after 15 exchanges from an empty memory
    these are the last 20 of the 30 entries appended. *)
Theorem memory_bounded_fifo :
  (forall E openai_key anthropic_key openai_limit anthropic_limit,
     memory_bounded (startup E openai_key anthropic_key openai_limit anthropic_limit))
  /\ (forall E config, keeps memory_bounded (createAgent E config))
  /\ (forall E agentId message options,
        keeps memory_bounded (executeAgent E agentId message options))
  /\ (forall E agentIds goal iterations,
        keeps memory_bounded (collaborateAgents E agentIds goal iterations))
  /\ (forall E agentId message options s agent result,
        agents s !! agentId = Some agent ->
        (executeAgent E agentId message options s).1 = Return result ->
        let k := (length (ag_memory agent) + 2 - 20)%nat in
        exists reply,
          msg_content reply = res_response result
          /\ (k <= length (ag_memory agent))%nat
          /\ ag_memory <$> agents (executeAgent E agentId message options s).2 !! agentId
             = Some (drop k (ag_memory agent)
                     ++ [Some {| msg_role := "user"; msg_content := message |};
                         Some reply]))
  /\ (forall E agentId messages s agent results,
        agents s !! agentId = Some agent ->
        (length (ag_memory agent) <= 20)%nat ->
        (converse E agentId messages s).1 = Return results ->
        let memory' := ag_memory <$> agents (converse E agentId messages s).2 !! agentId in
        exists replies,
          map msg_content replies = map res_response results
          /\ length replies = length messages
          /\ (let all := ag_memory agent ++ appended messages replies in
              memory' = Some (drop (length all - 20) all))
          /\ (ag_memory agent = [] -> length messages = 15%nat ->
                memory' = Some (drop 10 (appended messages replies))
                /\ length (drop 10 (appended messages replies)) = 20%nat)).
Proof.
  split. { intros E k1 k2 l1 l2 id agent. cbn. by rewrite lookup_empty. }
  split; [apply createAgent_bounded|].
  split; [apply executeAgent_bounded|].
  split; [apply collaborateAgents_bounded|].
  split.
  { intros E agentId message options s agent result Hag Hrun. cbn zeta.
    destruct (executeAgent_returns E agentId message options s agent result Hag Hrun)
      as (reply & Hreply & ->).
    exists reply. split; [done|]. split; [lia|].
    rewrite lookup_insert_eq. cbn.
    by destruct (push_and_limit_fifo (ag_memory agent) message (Some reply)) as [_ ->]. }
  intros E agentId messages s agent results Hag Hlen Hrun. cbn zeta.
  destruct (converse_memory E agentId messages s agent results Hag Hrun)
    as (replies & Hcontents & Hreplies & ->).
  exists replies. split; [done|]. split; [done|].
  rewrite (exchange_all_drop _ _ Hlen). cbn zeta. rewrite appended_entries.
  split; [done|]. intros Hempty Hfifteen.
  pose proof (appended_length messages replies Hreplies) as Hall.
  rewrite Hempty, app_nil_l, Hall, Hfifteen.
  split; [done|]. rewrite length_drop, Hall, Hfifteen. done.
Qed.

Lemma memory_bounded_fifo_witness :
  let E := Scenario.E_up in
  let s := (createAgent E (Scenario.config_of "Ada" "openai")
              (Scenario.openai_only E)).2 in
  let messages := map (fun k => "question " +:+ pretty k) (seq 0 15) in
  exists replies,
    length replies = 15%nat
    /\ ag_memory <$> agents (converse E "agent-0" messages s).2 !! "agent-0"
       = Some (drop 10 (appended messages replies)).
Proof.
  intros E s messages.
  destruct memory_bounded_fifo as (_ & _ & _ & _ & _ & Hseries).
  destruct ((converse E "agent-0" messages s).1) as [results|e] eqn:Hrun;
    [|vm_compute in Hrun; discriminate Hrun].
  destruct (Hseries E "agent-0" messages s
    {| ag_id := "agent-0"; ag_name := "Ada"; ag_role := "Assistant";
       ag_provider := "openai"; ag_model := "gpt-4";
       ag_instructions := "You are a helpful AI assistant."; ag_memory := [];
       ag_created := 1000 |} results eq_refl ltac:(cbn; lia) Hrun)
    as (replies & _ & Hlen & _ & Hfifteen).
  exists replies. split; [exact Hlen|].
  exact (proj1 (Hfifteen eq_refl eq_refl)).
Defined.

(** An agent that completes 15 exchanges, numbered 0 to 14, ends with the
    20 entries of exchanges 5 to 14. *)
Example fifteen_exchanges :
  let E := Scenario.E_up in
  let run :=
    (createAgent E (Scenario.config_of "Ada" "openai") >>
     Scenario.exchanges E "agent-0" 15 0) (Scenario.openai_only E) in
  run.1 = Return tt
  /\ ag_memory <$> agents run.2 !! "agent-0"
     = Some (concat (map Scenario.exchanged (seq 5 10))).
Proof. vm_compute. done. Qed.

(** A call of [executeAgent] can throw after it has changed the memory,
    and a provider call that returns need not append an assistant reply:
    when the first choice of the reply carries no message, the call throws
    and the agent holds the user message and an undefined entry. *)
Lemma failed_call_changes_memory :
  ~ (forall E agentId message options s agent e,
       agents s !! agentId = Some agent ->
       (executeAgent E agentId message options s).1 = Throw e ->
       ag_memory <$> agents (executeAgent E agentId message options s).2 !! agentId
       = Some (ag_memory agent))
  /\ ~ (forall E agentId message options s agent response,
          agents s !! agentId = Some agent ->
          (callAPI E (ag_provider agent)
             ([Some {| msg_role := "system"; msg_content := ag_instructions agent |}]
              ++ ag_memory agent
              ++ [Some {| msg_role := "user"; msg_content := message |}])
             (ag_model agent) (default [] options) s).1 = Return response ->
          exists k reply,
            ag_memory <$> agents (executeAgent E agentId message options s).2 !! agentId
            = Some (drop k (ag_memory agent)
                    ++ [Some {| msg_role := "user"; msg_content := message |};
                        Some reply])).
Proof.
  pose (E := Cases.E_blank).
  pose (s := (createAgent E (Scenario.config_of "Ada" "openai")
                (Scenario.openai_only E)).2).
  pose (agent :=
    {| ag_id := "agent-0"; ag_name := "Ada"; ag_role := "Assistant";
       ag_provider := "openai"; ag_model := "gpt-4";
       ag_instructions := "You are a helpful AI assistant."; ag_memory := [];
       ag_created := 1003 |}).
  split; intros H.
  - specialize (H E "agent-0" "hello" None s agent
                  (Error "Cannot read properties of undefined (reading 'content')")
                  eq_refl eq_refl).
    vm_compute in H. discriminate H.
  - destruct (H E "agent-0" "hello" None s agent
                {| rj_choices := Some [ {| ch_message := None |} ]; rj_content := None;
                   rj_usage := None |} eq_refl eq_refl) as (k & reply & Hmem).
    cbn [ag_memory agent] in Hmem. rewrite drop_nil in Hmem.
    vm_compute in Hmem. discriminate Hmem.
Qed.

Example failed_call_memory :
  let E := Cases.E_blank in
  let s := (createAgent E (Scenario.config_of "Ada" "openai")
              (Scenario.openai_only E)).2 in
  let run := executeAgent E "agent-0" "hello" None s in
  ag_memory <$> agents s !! "agent-0" = Some []
  /\ run.1 = Throw (Error "Cannot read properties of undefined (reading 'content')")
  /\ ag_memory <$> agents run.2 !! "agent-0"
     = Some [Some {| msg_role := "user"; msg_content := "hello" |}; None].
Proof. vm_compute. done. Qed.

(** C2, amended.  For a registered agent, no other agent's entry is ever
    touched.  When the provider call throws, [executeAgent] throws the
    same error and the registry is as it was before the call; when the
    call returns a reply without a first choice, [executeAgent] throws and
    the registry is again unchanged.  When the reply has a first choice,
    the agent's memory becomes its old memory without the oldest entries
    that exceed 20 with the two new ones, followed by the user message and
    then the entry of that choice, both together, nothing being dropped
    while the memory had at most 18 entries; [executeAgent]
    then returns that entry's content as the response, or throws if the
    choice carries no message.  So a call that returns has appended
    exactly the user message and the reply whose content it returns. *)
Theorem executeAgent_memory_atomic E agentId message options s agent :
  agents s !! agentId = Some agent ->
  let messages :=
    [Some {| msg_role := "system"; msg_content := ag_instructions agent |}]
    ++ ag_memory agent
    ++ [Some {| msg_role := "user"; msg_content := message |}] in
  let call :=
    callAPI E (ag_provider agent) messages (ag_model agent) (default [] options) s in
  let run := executeAgent E agentId message options s in
  let memory' := ag_memory <$> agents run.2 !! agentId in
  let user := Some {| msg_role := "user"; msg_content := message |} in
  let k := (length (ag_memory agent) + 2 - 20)%nat in
  (forall id, id <> agentId -> agents run.2 !! id = agents s !! id)
  /\ match call.1 with
     | Throw e =>
         run.1 = Throw e /\ agents run.2 = agents s
         /\ memory' = Some (ag_memory agent)
     | Return response =>
         match rj_choices response with
         | Some (c :: _) =>
             (k <= length (ag_memory agent))%nat
             /\ (length (ag_memory agent) <= 18 -> k = 0)%nat
             /\ memory' = Some (drop k (ag_memory agent) ++ [user; ch_message c])
             /\ match ch_message c with
                | Some reply =>
                    exists result,
                      run.1 = Return result
                      /\ res_response result = msg_content reply
                      /\ res_usage result = rj_usage response
                      /\ sum_id (res_agent result) = ag_id agent
                | None =>
                    run.1 = Throw (Error
                      "Cannot read properties of undefined (reading 'content')")
                end
         | _ =>
             (exists e, run.1 = Throw e) /\ agents run.2 = agents s
             /\ memory' = Some (ag_memory agent)
         end
     end
  /\ (forall result,
        run.1 = Return result ->
        exists reply,
          msg_content reply = res_response result
          /\ memory' = Some (drop k (ag_memory agent) ++ [user; Some reply])).
Proof.
  intros Hag. cbn zeta. split; [|split].
  - intros id Hid.
    destruct (executeAgent_agents E agentId message options s)
      as [[-> _] | (a & am & _ & ->)]; [done|].
    by rewrite lookup_insert_ne.
  - rewrite executeAgent_run, Hag. cbn zeta.
    case_callAPI response e s1 Hcall; cbn [fst snd]; [|by rewrite Hcall, Hag].
    destruct (rj_choices response) as [[|c cs]|]; cbn [fst snd];
      [rewrite Hcall, Hag; by eauto | | rewrite Hcall, Hag; by eauto].
    destruct (push_and_limit_fifo (ag_memory agent) message (ch_message c)) as [Hk Hpush].
    unfold exchange_entries in Hpush. cbn [fst snd] in Hpush.
    split; [done|]. split; [lia|]. split.
    + destruct (ch_message c); cbn [snd set_agents agents];
        rewrite lookup_insert_eq; exact (f_equal Some Hpush).
    + destruct (ch_message c) as [reply|]; [|done].
      eexists. split; [reflexivity|]. done.
  - intros result Hrun.
    destruct (executeAgent_returns E agentId message options s agent result Hag Hrun)
      as (reply & Hreply & ->).
    destruct (push_and_limit_fifo (ag_memory agent) message (Some reply)) as [Hk Hpush].
    unfold exchange_entries in Hpush. cbn [fst snd] in Hpush.
    exists reply. split; [done|].
    rewrite lookup_insert_eq. exact (f_equal Some Hpush).
Qed.

Lemma executeAgent_memory_atomic_witness :
  let E := Scenario.E_up in
  let s := (createAgent E (Scenario.config_of "Ada" "openai")
              (Scenario.openai_only E)).2 in
  let run := executeAgent E "agent-0" "hello" None s in
  exists reply,
    msg_content reply = "reply 0"
    /\ ag_memory <$> agents run.2 !! "agent-0"
       = Some [Some {| msg_role := "user"; msg_content := "hello" |}; Some reply].
Proof.
  intros E s run.
  destruct (executeAgent_memory_atomic E "agent-0" "hello" None s
    {| ag_id := "agent-0"; ag_name := "Ada"; ag_role := "Assistant";
       ag_provider := "openai"; ag_model := "gpt-4";
       ag_instructions := "You are a helpful AI assistant."; ag_memory := [];
       ag_created := 1000 |} eq_refl) as (_ & _ & H).
  destruct (H {| res_agent := {| sum_id := "agent-0"; sum_name := "Ada";
                                 sum_role := "Assistant"; sum_provider := "openai" |};
                 res_response := "reply 0";
                 res_usage := Some [("total_tokens", 7)] |} eq_refl)
    as (reply & Hreply & Hmem).
  exists reply. split; [exact Hreply | exact Hmem].
Defined.

(** ** The order of the turns *)

Lemma keeps_registry_consistent {A} (m : M A) :
  (forall s, agents (m s).2 = agents s) -> keeps registry_consistent m.
Proof. intros Hm s Hs id agent. rewrite Hm. apply Hs. Qed.

Lemma createAgent_consistent E config : keeps registry_consistent (createAgent E config).
Proof.
  intros s Hs id agent. rewrite createAgent_run. cbn.
  rewrite lookup_insert. case_decide.
  - by intros [= <-].
  - apply Hs.
Qed.

Lemma executeAgent_consistent E agentId message options :
  keeps registry_consistent (executeAgent E agentId message options).
Proof.
  intros s Hs id agent.
  destruct (executeAgent_agents E agentId message options s)
    as [[-> _] | (a & am & Ha & ->)]; [apply Hs|].
  rewrite lookup_insert. case_decide.
  - intros [= <-]. cbn. subst id. by apply Hs.
  - apply Hs.
Qed.

(** The summary of a result names the agent that was asked. *)
Lemma executeAgent_result_id E agentId message options s result :
  registry_consistent s ->
  (executeAgent E agentId message options s).1 = Return result ->
  sum_id (res_agent result) = agentId.
Proof.
  intros Hs. rewrite executeAgent_run.
  destruct (agents s !! agentId) as [agent|] eqn:Hag; [|done].
  cbn zeta. destruct (callAPI _ _ _ _ _ _) as [[response|e] s1]; [|done].
  destruct (rj_choices response) as [[|c cs]|]; [done| |done].
  destruct (ch_message c); [|done]. cbn. intros [= <-]. cbn. by apply Hs.
Qed.

Lemma turn_order E agentIds i agentId l s :
  registry_consistent s ->
  exists l' s',
    turn E agentIds i agentId l s = (Return l', s')
    /\ map turn_agent_id (conv l') = map turn_agent_id (conv l) ++ [agentId]
    /\ registry_consistent s'.
Proof.
  intros Hs. rewrite turn_run.
  pose proof (executeAgent_consistent E agentId (currentMessage l) None s Hs) as Hs1.
  pose proof (executeAgent_result_id E agentId (currentMessage l) None s) as Hid.
  destruct (executeAgent _ _ _ _ _) as [[result|e] s1]; cbn in Hs1, Hid; cbn zeta;
    eexists _, _; (split; [reflexivity|]); cbn; rewrite map_app; cbn;
    (split; [|done]).
  - by rewrite (Hid result Hs eq_refl).
  - done.
Qed.

Lemma round_order E agentIds i todo l s :
  registry_consistent s ->
  exists l' s',
    round E agentIds i todo l s = (Return l', s')
    /\ map turn_agent_id (conv l') = map turn_agent_id (conv l) ++ todo
    /\ registry_consistent s'.
Proof.
  revert l s. induction todo as [|agentId todo IH]; intros l s Hs; cbn.
  - eexists _, _. split; [done|]. by rewrite app_nil_r.
  - rewrite bind_run.
    destruct (turn_order E agentIds i agentId l s Hs) as (l1 & s1 & -> & Hids1 & Hs1).
    destruct (IH l1 s1 Hs1) as (l' & s' & -> & Hids & Hs').
    eexists _, _. split; [done|]. split; [|done].
    by rewrite Hids, Hids1, <- app_assoc.
Qed.

Lemma rounds_order E agentIds n i l s :
  registry_consistent s ->
  exists l' s',
    rounds E agentIds n i l s = (Return l', s')
    /\ map turn_agent_id (conv l')
       = map turn_agent_id (conv l) ++ concat (replicate n agentIds)
    /\ registry_consistent s'.
Proof.
  revert i l s. induction n as [|n IH]; intros i l s Hs; cbn.
  - eexists _, _. split; [done|]. by rewrite app_nil_r.
  - rewrite bind_run.
    destruct (round_order E agentIds i agentIds l s Hs) as (l1 & s1 & -> & Hids1 & Hs1).
    destruct (IH (i + 1) l1 s1 Hs1) as (l' & s' & -> & Hids & Hs').
    eexists _, _. split; [done|]. split; [|done].
    by rewrite Hids, Hids1, <- app_assoc.
Qed.

(** The records of a run follow the caller's order of the agents in every
    iteration, failed turns included. *)
Lemma collaborate_turn_order E agentIds goal iterations s :
  registry_consistent s ->
  exists c s',
    collaborateAgents E agentIds goal iterations s = (Return c, s')
    /\ map turn_agent_id (conversation c)
       = concat (replicate (Z.to_nat iterations) agentIds)
    /\ registry_consistent s'.
Proof.
  intros Hs. unfold collaborateAgents, bind, uuidv4, Date_now, ret. cbn.
  match goal with |- context [rounds _ _ _ _ ?l0 ?s0] =>
    destruct (rounds_order E agentIds (Z.to_nat iterations) 0 l0 s0)
      as (l' & s' & -> & Hids & Hs') end; [done|].
  eexists _, _. split; [reflexivity|]. cbn. split; [by rewrite Hids|].
  intros id agent. apply Hs'.
Qed.

(** ** The prompt of the next turn *)

(** After a turn that threw, the prompt is not the digest of the latest
    records; and after the first turn of a run of two agents, the digest
    does not cover as many records as there are agents. *)
Lemma failed_turn_keeps_prompt :
  ~ (forall E agentIds i agentId l s l' s',
       turn E agentIds i agentId l s = (Return l', s') ->
       currentMessage l' = digest agentIds (conv l'))
  /\ ~ (forall E agentIds i agentId l s l' s',
          turn E agentIds i agentId l s = (Return l', s') ->
          length (slice (- Z.of_nat (length agentIds)) (conv l')) = length agentIds).
Proof.
  pose (E := Scenario.E_up).
  pose (s := (Scenario.two_agents E "anthropic" (Scenario.openai_only E)).2).
  destruct (turn E Scenario.pair 0 "agent-0"
              {| conv := []; currentMessage := initial_message "plan" |} s)
    as [[l1|e] s1] eqn:Hfirst; [|vm_compute in Hfirst; discriminate Hfirst].
  split; intros H.
  - destruct (turn E Scenario.pair 0 "agent-1" l1 s1) as [[l2|e] s2] eqn:Hsecond;
      [|vm_compute in Hfirst; injection Hfirst as <- <-;
        vm_compute in Hsecond; discriminate Hsecond].
    specialize (H E Scenario.pair 0 "agent-1" l1 s1 l2 s2 Hsecond).
    vm_compute in Hfirst. injection Hfirst as <- <-.
    vm_compute in Hsecond. injection Hsecond as <- <-.
    vm_compute in H. discriminate H.
  - specialize (H E Scenario.pair 0 "agent-0" _ s l1 s1 Hfirst).
    vm_compute in Hfirst. injection Hfirst as <- <-.
    vm_compute in H. discriminate H.
Qed.

Example failed_turn_scenario :
  let E := Scenario.E_up in
  let s := (Scenario.two_agents E "anthropic" (Scenario.openai_only E)).2 in
  exists l s',
    round E Scenario.pair 0 Scenario.pair
      {| conv := []; currentMessage := initial_message "plan" |} s = (Return l, s')
    /\ map render (conv l) = ["Ada: reply 0"; "undefined: undefined"]
    /\ currentMessage l
       = "Previous responses:" +:+ nl +:+ "Ada: reply 0" +:+ nl +:+ nl
         +:+ "Please build upon these ideas and continue working toward our goal.".
Proof. eexists _, _. split; [vm_compute; reflexivity|]. vm_compute. done. Qed.

(** With two agents whose turns all return, the prompt of the first turn
    of iteration 2 is the digest of the two records of iteration 1: it is
    the prompt after the first round, and the user message the first agent
    stores on its second turn. *)
Example round_robin_scenario :
  let E := Scenario.E_up in
  let s := (Scenario.two_agents E "openai" (Scenario.openai_only E)).2 in
  let prompt :=
    "Previous responses:" +:+ nl +:+ "Ada: reply 0" +:+ nl +:+ nl +:+ "Bob: reply 1"
    +:+ nl +:+ nl
    +:+ "Please build upon these ideas and continue working toward our goal." in
  (exists l s',
     round E Scenario.pair 0 Scenario.pair
       {| conv := []; currentMessage := initial_message "plan" |} s = (Return l, s')
     /\ map turn_iteration (conv l) = [1; 1]
     /\ currentMessage l = prompt)
  /\ (ag_memory <$> agents (collaborateAgents E Scenario.pair "plan" 2 s).2 !! "agent-0")
       ≫= (fun memory => memory !! 2%nat)
     = Some (Some {| msg_role := "user"; msg_content := prompt |}).
Proof.
  split; [eexists _, _; split; [vm_compute; reflexivity|]|]; vm_compute; done.
Qed.

Lemma digest_last agentIds (records : list TurnRecord) :
  (0 < length agentIds)%nat ->
  digest agentIds records
  = "Previous responses:" +:+ nl
    +:+ join (nl +:+ nl)
          (map render (drop (length records - length agentIds) records))
    +:+ nl +:+ nl
    +:+ "Please build upon these ideas and continue working toward our goal.".
Proof.
  intros Hn. unfold digest. rewrite slice_negative by lia.
  by replace (Z.to_nat (- - Z.of_nat (length agentIds))) with (length agentIds) by lia.
Qed.

(** The prompts of successive turns: the first is the prompt the turns
    start with; after a turn that returned, the next is the digest of the
    conversation with the records up to that turn; after a turn that threw,
    the next is the prompt of that turn once more. *)
Lemma Turns_prompts E agentIds todo l s log l' s' :
  Turns E agentIds todo l s log l' s' ->
  (forall p r, log !! 0%nat = Some (p, r) -> p = currentMessage l)
  /\ forall j p r p' r',
       log !! j = Some (p, r) -> log !! S j = Some (p', r') ->
       match r with
       | TurnResponse _ _ _ => p' = digest agentIds (conv l ++ map snd (take (S j) log))
       | TurnError _ _ _ _ => p' = p
       end.
Proof.
  induction 1 as [l s|i agentId todo l s result s0 log l' s' _ _ [IH0 IH]
                 |i agentId todo l s e s0 log l' s' _ _ [IH0 IH]].
  - split; [done|]. by intros [|j].
  - split; [by intros p r [= <- _]|].
    intros [|j] p r p' r'; cbn [lookup list_lookup].
    + intros [= <- <-] Hnext. by rewrite (IH0 _ _ Hnext).
    + intros Hj Hnext. specialize (IH j p r p' r' Hj Hnext).
      destruct r; [|done]. rewrite IH. cbn [conv]. by rewrite <- app_assoc.
  - split; [by intros p r [= <- _]|].
    intros [|j] p r p' r'; cbn [lookup list_lookup].
    + intros [= <- <-] Hnext. by rewrite (IH0 _ _ Hnext).
    + intros Hj Hnext. specialize (IH j p r p' r' Hj Hnext).
      destruct r; [|done]. rewrite IH. cbn [conv]. by rewrite <- app_assoc.
Qed.

(** C5, amended.  In a run of [collaborateAgents] the prompt of the first
    turn is the initial message of the goal.  After a turn that returns,
    the prompt [executeAgent] is called with on the next turn is the digest
    of the records so far cut to the last [agentIds.length] of them (all of
    them while there are fewer), the new record included, whatever
    iteration they belong to; after a turn that throws, the next turn is
    called with the same prompt again.  So with two agents whose turns of
    iteration 1 both return, the first turn of iteration 2 is called with
    the two responses of iteration 1 under their agents' names. *)
Theorem prompt_transition E agentIds goal iterations s :
  exists c s' log l' s1,
    collaborateAgents E agentIds goal iterations s = (Return c, s')
    /\ Turns E agentIds (schedule agentIds (Z.to_nat iterations) 0)
         {| conv := []; currentMessage := initial_message goal |}
         (tick (drawn s)) log l' s1
    /\ s' = tick s1
    /\ conversation c = map snd log
    /\ map turn_iteration (conversation c)
       = round_numbers (length agentIds) (Z.to_nat iterations) 0
    /\ (forall p r, log !! 0%nat = Some (p, r) -> p = initial_message goal)
    /\ (forall j p r p' r',
          log !! j = Some (p, r) -> log !! S j = Some (p', r') ->
          match r with
          | TurnResponse _ _ _ =>
              p' = "Previous responses:" +:+ nl
                   +:+ join (nl +:+ nl)
                         (map render (drop (S j - length agentIds)
                                        (take (S j) (conversation c))))
                   +:+ nl +:+ nl
                   +:+ "Please build upon these ideas and continue working toward our goal."
          | TurnError _ _ _ _ => p' = p
          end)
    /\ (forall a b p0 i0 t0 ra p1 i1 t1 rb p r,
          agentIds = [a; b] ->
          log !! 0%nat = Some (p0, TurnResponse i0 t0 ra) ->
          log !! 1%nat = Some (p1, TurnResponse i1 t1 rb) ->
          log !! 2%nat = Some (p, r) ->
          turn_iteration r = 2
          /\ p = "Previous responses:" +:+ nl
                 +:+ ((sum_name (res_agent ra) +:+ ": " +:+ res_response ra)
                      +:+ (nl +:+ nl)
                      +:+ (sum_name (res_agent rb) +:+ ": " +:+ res_response rb))
                 +:+ nl +:+ nl
                 +:+ "Please build upon these ideas and continue working toward our goal.").
Proof.
  destruct (collaborateAgents_turns E agentIds goal iterations s)
    as (c & log & l' & s1 & Hrun & Hturns & Hconv & _).
  destruct (Turns_prompts _ _ _ _ _ _ _ _ Hturns) as [Hfirst Hnext].
  pose proof (Turns_iterations _ _ _ _ _ _ _ _ Hturns) as Hit.
  rewrite schedule_iterations in Hit.
  exists c, (tick s1), log, l', s1.
  split; [done|]. split; [done|]. split; [done|]. split; [done|].
  split; [by rewrite Hconv, map_map|].
  split; [exact Hfirst|]. split.
  - intros j p r p' r' Hj HSj. specialize (Hnext j p r p' r' Hj HSj).
    destruct r; [|done]. rewrite Hnext. cbn [conv app].
    assert (Hlen : (S j < length log)%nat) by (by eapply lookup_lt_Some).
    assert (Hn : (0 < length agentIds)%nat).
    { rewrite (Turns_length _ _ _ _ _ _ _ _ Hturns), schedule_length in Hlen.
      destruct agentIds; cbn in *; lia. }
    rewrite digest_last by done. rewrite Hconv, firstn_map, !length_map, length_take.
    by replace (S j `min` length log)%nat with (S j) by lia.
  - intros a b p0 i0 t0 ra p1 i1 t1 rb p r -> H0 H1 H2.
    specialize (Hnext 1%nat _ _ _ _ H1 H2). cbn beta iota in Hnext.
    assert (Hlen : (2 < length log)%nat) by (by eapply lookup_lt_Some).
    rewrite (Turns_length _ _ _ _ _ _ _ _ Hturns), schedule_length in Hlen.
    destruct log as [|x0 [|x1 [|x2 log]]]; cbn in H0, H1, H2; try discriminate.
    injection H0 as ->. injection H1 as ->. injection H2 as ->.
    split; [|rewrite Hnext; reflexivity].
    destruct (Z.to_nat iterations) as [|[|n]]; [cbn in Hlen; lia..|].
    cbn in Hit. by injection Hit as _ _ -> _.
Qed.

Lemma prompt_transition_witness :
  let E := Scenario.E_up in
  let s := (Scenario.two_agents E "openai" (Scenario.openai_only E)).2 in
  exists c s' log l' s1,
    collaborateAgents E Scenario.pair "plan" 2 s = (Return c, s')
    /\ Turns E Scenario.pair (schedule Scenario.pair 2 0)
         {| conv := []; currentMessage := initial_message "plan" |}
         (tick (drawn s)) log l' s1
    /\ s' = tick s1
    /\ conversation c = map snd log
    /\ forall p r,
         log !! 2%nat = Some (p, r) ->
         turn_iteration r = 2
         /\ p = "Previous responses:" +:+ nl +:+ "Ada: reply 0" +:+ nl +:+ nl
                +:+ "Bob: reply 1" +:+ nl +:+ nl
                +:+ "Please build upon these ideas and continue working toward our goal.".
Proof.
  intros E s.
  destruct (prompt_transition E Scenario.pair "plan" 2 s)
    as (c & s' & log & l' & s1 & Hrun & Hturns & Hstate & Hconv & _ & _ & _ & Hpair).
  exists c, s', log, l', s1.
  split; [exact Hrun|]. split; [exact Hturns|]. split; [exact Hstate|].
  split; [exact Hconv|].
  intros p r Hthird.
  change (schedule Scenario.pair (Z.to_nat 2) 0)
    with [(0, "agent-0"); (0, "agent-1"); (1, "agent-0"); (1, "agent-1")] in Hturns.
  apply Turns_first in Hturns as (r0 & rest0 & Hlog0 & Hfirst).
  vm_compute in Hfirst. destruct Hfirst as [Hr0 Hturns].
  apply Turns_first in Hturns as (r1 & rest1 & Hlog1 & Hsecond).
  vm_compute in Hsecond. destruct Hsecond as [Hr1 _].
  rewrite Hlog0, Hlog1, Hr0, Hr1 in Hthird, Hpair.
  exact (Hpair _ _ _ _ _ _ _ _ _ _ p r eq_refl eq_refl eq_refl Hthird).
Defined.

(** ** The Anthropic adapter *)

Lemma obj_get_set k k' v o :
  obj_get k (obj_set k' v o) = if decide (k = k') then Some v else obj_get k o.
Proof.
  induction o as [|[k0 v0] o IH]; cbn.
  - by destruct (decide (k = k')).
  - destruct (decide (k' = k0)) as [->|Hne]; cbn.
    + by destruct (decide (k = k0)).
    + rewrite IH. destruct (decide (k = k0)) as [->|]; [|done].
      by rewrite decide_False.
Qed.

(** A spread leaves alone the keys it does not carry. *)
Lemma obj_get_spread k o extra :
  obj_get k extra = None -> obj_get k (obj_spread o extra) = obj_get k o.
Proof.
  unfold obj_spread. revert o.
  induction extra as [|[k' v'] extra IH]; intros o; cbn; [done|].
  destruct (decide (k = k')) as [->|Hne]; [done|]. intros Hk.
  rewrite IH by done. rewrite obj_get_set. by rewrite decide_False.
Qed.

Lemma checkAndReserve_true now now' w :
  (Spec.checkAndReserve now now' w).1 = true ->
  (requests (Spec.reset now now' w) <? limit (Spec.reset now now' w)) = true.
Proof. unfold Spec.checkAndReserve. cbn zeta. by destruct (_ <? _). Qed.

(** The caller's options are written last: an option named [system]
    replaces the text joined from the system messages. *)
Lemma caller_system_option_is_sent :
  ~ (forall E (ms : list Message) model options s,
       key_missing (anthropicKey s) = false ->
       (Spec.checkAndReserve (env_now E (nowCalls s)) (env_now E (S (nowCalls s)))
          (rl_anthropic (rateLimits s))).1 = true ->
       exists req fields,
         sent (callAnthropic E (map Some ms) model options s).2 = sent s ++ [req]
         /\ req_body req = JObj fields
         /\ obj_get "system" fields
            = Some (JStr (join nl (map msg_content
                                     (filter (fun m => msg_role m = "system") ms))))).
Proof.
  intros H.
  destruct (H Scenario.E_up Scenario.mixed "claude-3-5-sonnet-20241022"
              [("system", JStr "Be brief.")] (Scenario.limit1 Scenario.E_up)
              eq_refl eq_refl)
    as (req & fields & Hsent & Hbody & Hsystem).
  vm_compute in Hsent. injection Hsent as <-.
  vm_compute in Hbody. injection Hbody as <-.
  vm_compute in Hsystem. discriminate Hsystem.
Qed.

Example caller_system_option_scenario :
  let E := Scenario.E_up in
  let run :=
    callAnthropic E (map Some Scenario.mixed) "claude-3-5-sonnet-20241022"
      [("system", JStr "Be brief.")] (Scenario.limit1 E) in
  map req_body (sent run.2)
  = [JObj [("model", JStr "claude-3-5-sonnet-20241022");
           ("max_tokens", JNum (2000 # 1));
           ("temperature", JNum (7 # 10));
           ("system", JStr "Be brief.");
           ("messages",
            JArr [JObj [("role", JStr "user"); ("content", JStr "U1")];
                  JObj [("role", JStr "assistant"); ("content", JStr "A1")]])]].
Proof. vm_compute. done. Qed.

(** The messages [executeAgent] hands to the client when no entry of the
    memory is undefined. *)
Lemma all_defined_context instructions (memory : list Message) message :
  all_defined
    ([Some {| msg_role := "system"; msg_content := instructions |}]
     ++ map Some memory
     ++ [Some {| msg_role := "user"; msg_content := message |}])
  = Some ([{| msg_role := "system"; msg_content := instructions |}]
          ++ memory ++ [{| msg_role := "user"; msg_content := message |}]).
Proof.
  change ([Some ?a] ++ map Some memory ++ [Some ?b])
    with (map Some [a] ++ map Some memory ++ map Some [b]).
  by rewrite <- !map_app, all_defined_Some.
Qed.

(** C8, amended.  For every message list, on a call that reaches the
    network with options that carry no [system] and no [messages] member of
    their own, [callAnthropic] sends one request whose [system] field is
    the contents of the system messages joined by newlines and whose
    [messages] field is the list of the other messages in their original
    order; it wraps the text of the first content block of the reply, with
    the reply's usage, into [{choices: [{message: {role: 'assistant',
    content}}], usage}].  What [executeAgent] then makes of a reply does not
    depend on the provider: an agent of either provider whose request is
    answered by its provider's shape of a reply with text [text] and usage
    [usage], returns that text and usage and has stored the user message
    followed by the assistant message with that text. *)
Theorem anthropic_normalization :
  (forall E (ms : list Message) model options s,
     key_missing (anthropicKey s) = false ->
     (Spec.checkAndReserve (env_now E (nowCalls s)) (env_now E (S (nowCalls s)))
        (rl_anthropic (rateLimits s))).1 = true ->
     obj_get "system" options = None ->
     obj_get "messages" options = None ->
     let run := callAnthropic E (map Some ms) model options s in
     let conversationMessages := filter (fun m => msg_role m <> "system") ms in
     exists req fields,
       sent run.2 = sent s ++ [req]
       /\ req_url req = "https://api.anthropic.com/v1/messages"
       /\ req_body req = JObj fields
       /\ obj_get "system" fields
          = Some (JStr (join nl (map msg_content
                                   (filter (fun m => msg_role m = "system") ms))))
       /\ obj_get "messages" fields
          = Some (JArr (map (fun m =>
                               JObj [("role", JStr (msg_role m));
                                     ("content", JStr (msg_content m))])
                          conversationMessages))
       /\ conversationMessages `sublist_of` ms
       /\ Forall (fun m => msg_role m <> "system") conversationMessages
       /\ forall resp result b bs,
            env_fetch E (length (sent s)) req = Resolved resp ->
            resp_ok resp = true ->
            resp_json resp = inr result ->
            rj_content result = Some (b :: bs) ->
            exists reply,
              run.1 = Return reply
              /\ rj_choices reply
                 = Some [ {| ch_message :=
                               Some {| msg_role := "assistant";
                                       msg_content := cb_text b |} |} ]
              /\ rj_usage reply = rj_usage result)
  /\ (forall E agentId message options s agent (memory : list Message) resp body
             text usage cs bs,
        agents s !! agentId = Some agent ->
        ag_memory agent = map Some memory ->
        (forall r, env_fetch E (length (sent s)) r = Resolved resp) ->
        resp_ok resp = true ->
        resp_json resp = inr body ->
        rj_usage body = usage ->
        (ag_provider agent = "openai"
         /\ key_missing (openaiKey s) = false
         /\ (Spec.checkAndReserve (env_now E (nowCalls s)) (env_now E (S (nowCalls s)))
               (rl_openai (rateLimits s))).1 = true
         /\ rj_choices body
            = Some ({| ch_message :=
                         Some {| msg_role := "assistant"; msg_content := text |} |} :: cs))
        \/ (ag_provider agent = "anthropic"
            /\ key_missing (anthropicKey s) = false
            /\ (Spec.checkAndReserve (env_now E (nowCalls s))
                  (env_now E (S (nowCalls s))) (rl_anthropic (rateLimits s))).1 = true
            /\ rj_content body = Some ({| cb_text := text |} :: bs)) ->
        let run := executeAgent E agentId message options s in
        run.1 = Return {| res_agent :=
                            {| sum_id := ag_id agent; sum_name := ag_name agent;
                               sum_role := ag_role agent;
                               sum_provider := ag_provider agent |};
                          res_response := text;
                          res_usage := usage |}
        /\ ag_memory <$> agents run.2 !! agentId
           = Some (drop (length (ag_memory agent) + 2 - 20) (ag_memory agent)
                   ++ [Some {| msg_role := "user"; msg_content := message |};
                       Some {| msg_role := "assistant"; msg_content := text |}])).
Proof.
  split.
  - intros E ms model options s Hkey Hadm%checkAndReserve_true Hsys Hmsgs. cbn zeta.
    rewrite callAnthropic_run, Hkey, all_defined_Some. cbn zeta.
    rewrite Hadm. eexists _, _. cbn [fst snd].
    split; [reflexivity|]. split; [reflexivity|]. split; [reflexivity|].
    split; [by rewrite obj_get_spread|]. split; [by rewrite obj_get_spread|].
    split; [apply sublist_filter|].
    split; [apply Forall_forall; intros m Hm; by apply list_elem_of_filter in Hm as [? _]|].
    intros resp result b bs -> Hok Hjson Hcontent. unfold anthropic_outcome.
    rewrite Hok, Hjson, Hcontent. by eexists.
  - intros E agentId message options s agent memory resp body text usage cs bs
      Hag Hmem Hfetch Hok Hjson Husage Hcase. cbn zeta.
    destruct (push_and_limit_fifo (ag_memory agent) message
                (Some {| msg_role := "assistant"; msg_content := text |})) as [_ Hpush].
    unfold exchange_entries in Hpush. cbn [fst snd] in Hpush.
    rewrite executeAgent_run, Hag. cbn zeta. unfold callAPI, try_catch.
    destruct Hcase as [(Hprov & Hkey & Hadm%checkAndReserve_true & Hbody)
                      |(Hprov & Hkey & Hadm%checkAndReserve_true & Hbody)];
      rewrite Hprov.
    + rewrite decide_True by done.
      rewrite callOpenAI_run, Hkey. cbn zeta. rewrite Hadm, Hfetch.
      unfold openai_outcome. rewrite Hok, Hjson, Hbody. cbn [fst snd ch_message].
      rewrite Husage. split; [done|].
      cbn [set_agents agents]. rewrite lookup_insert_eq. exact (f_equal Some Hpush).
    + rewrite decide_False by done. rewrite decide_True by done.
      rewrite callAnthropic_run, Hkey. cbn zeta. rewrite Hadm.
      rewrite Hmem, all_defined_context. rewrite Hfetch.
      unfold anthropic_outcome. rewrite Hok, Hjson, Hbody.
      cbn [fst snd ch_message rj_choices rj_usage normalized cb_text].
      rewrite Husage. split; [done|].
      cbn [set_agents agents]. rewrite lookup_insert_eq, <- Hmem.
      exact (f_equal Some Hpush).
Qed.

Lemma anthropic_normalization_witness :
  let E := Scenario.E_up in
  let s := Scenario.limit1 E in
  let s2 := (Scenario.two_agents E "anthropic" s).2 in
  (exists req fields,
     sent (callAnthropic E (map Some Scenario.mixed) "claude-3-5-sonnet-20241022" [] s).2
     = sent s ++ [req]
     /\ req_body req = JObj fields
     /\ obj_get "system" fields = Some (JStr ("S1" +:+ nl +:+ "S2")))
  /\ (exists result,
        (executeAgent E "agent-1" "hello" None s2).1 = Return result
        /\ sum_provider (res_agent result) = "anthropic"
        /\ res_response result = "reply 0")
  /\ ag_memory <$> agents (executeAgent E "agent-1" "hello" None s2).2 !! "agent-1"
     = Some [Some {| msg_role := "user"; msg_content := "hello" |};
             Some {| msg_role := "assistant"; msg_content := "reply 0" |}].
Proof.
  intros E s s2.
  destruct anthropic_normalization as [Hshape Hagnostic].
  split.
  - destruct (Hshape E Scenario.mixed "claude-3-5-sonnet-20241022" [] s)
      as (req & fields & H1 & _ & H2 & H3 & _); [reflexivity..|].
    exists req, fields. split; [exact H1|]. split; [exact H2 | exact H3].
  - destruct (Hagnostic E "agent-1" "hello" None s2
      {| ag_id := "agent-1"; ag_name := "Bob"; ag_role := "Assistant";
         ag_provider := "anthropic"; ag_model := "claude-3-5-sonnet-20241022";
         ag_instructions := "You are a helpful AI assistant."; ag_memory := [];
         ag_created := 1000 |} []
      {| resp_ok := true; resp_status := 200; resp_statusText := "OK";
         resp_json :=
           inr {| rj_choices :=
                    Some [ {| ch_message :=
                                Some {| msg_role := "assistant";
                                        msg_content := "reply 0" |} |} ];
                  rj_content := Some [ {| cb_text := "reply 0" |} ];
                  rj_usage := Some [("total_tokens", 7)] |} |}
      _ "reply 0" (Some [("total_tokens", 7)]) [] []
      eq_refl eq_refl (fun _ => eq_refl) eq_refl eq_refl eq_refl
      (or_intror (conj eq_refl (conj eq_refl (conj eq_refl eq_refl)))))
      as [Hresult Hmemory].
    split; [|exact Hmemory].
    eexists. split; [exact Hresult|]. split; reflexivity.
Defined.

(** The request and the reply of one call, in full. *)
Example anthropic_scenario :
  let E := Scenario.E_up in
  let run :=
    callAnthropic E (map Some Scenario.mixed) "claude-3-5-sonnet-20241022" []
      (Scenario.limit1 E) in
  sent run.2
  = [ {| req_url := "https://api.anthropic.com/v1/messages";
         req_headers := [("x-api-key", "sk-ant-test");
                         ("Content-Type", "application/json");
                         ("anthropic-version", "2023-06-01")];
         req_body :=
           JObj [("model", JStr "claude-3-5-sonnet-20241022");
                 ("max_tokens", JNum (2000 # 1));
                 ("temperature", JNum (7 # 10));
                 ("system", JStr ("S1" +:+ nl +:+ "S2"));
                 ("messages",
                  JArr [JObj [("role", JStr "user"); ("content", JStr "U1")];
                        JObj [("role", JStr "assistant"); ("content", JStr "A1")]])] |} ]
  /\ run.1 = Return (normalized "reply 0" (Some [("total_tokens", 7)])).
Proof. vm_compute. done. Qed.

(** The same exchange with an agent of either provider gives the same
    response, usage and memory. *)
Example provider_agnostic_scenario :
  let E := Scenario.E_up in
  let s := (Scenario.two_agents E "anthropic" (Scenario.limit1 E)).2 in
  let a := executeAgent E "agent-0" "hello" None s in
  let b := executeAgent E "agent-1" "hello" None s in
  (exists ra rb,
     a.1 = Return ra /\ b.1 = Return rb
     /\ sum_provider (res_agent ra) = "openai"
     /\ sum_provider (res_agent rb) = "anthropic"
     /\ res_response ra = res_response rb
     /\ res_usage ra = res_usage rb)
  /\ ag_memory <$> agents a.2 !! "agent-0" = ag_memory <$> agents b.2 !! "agent-1".
Proof. split; [eexists _, _|]; vm_compute; done. Qed.

(** * Further properties of the code *)

(** ** A frame rule for the client and the orchestrator *)

Section Frame.

Variable E : Env.
Variable I : Proc -> Prop.
Hypothesis HI : Respects I.

Lemma keeps_ret {A} (a : A) : keeps I (ret a).
Proof. by intros s Hs. Qed.

Lemma keeps_throw {A} (e : JsError) : keeps I (@throw A e).
Proof. by intros s Hs. Qed.

Lemma keeps_gets {A} (f : Proc -> A) : keeps I (gets f).
Proof. by intros s Hs. Qed.

Lemma keeps_Date_now : keeps I (Date_now E).
Proof. intros s Hs. by apply (respects_tick I HI). Qed.

Lemma keeps_uuidv4 : keeps I (uuidv4 E).
Proof. intros s Hs. by apply (respects_drawn I HI). Qed.

Lemma after_check_respects provider w s :
  rateLimit_of provider (rateLimits s) = Some w ->
  I s -> I (after_check E provider w s).
Proof.
  intros Hw Hs. unfold after_check, Spec.reset.
  destruct (resetTime w <? env_now E (nowCalls s)).
  - apply (respects_reset I HI provider (env_now E (S (nowCalls s))) w (tick (tick s)));
      [done|]. by do 2 apply (respects_tick I HI).
  - rewrite (update_rateLimit_id _ _ _ Hw). by apply (respects_tick I HI).
Qed.

Lemma rateLimit_of_reset provider w w' r :
  rateLimit_of provider r = Some w ->
  rateLimit_of provider (update_rateLimit provider (fun _ => w') r) = Some w'.
Proof.
  unfold rateLimit_of, update_rateLimit. repeat case_decide; by intros [= <-].
Qed.

Lemma reserved_respects provider bump w s :
  rateLimit_of provider (rateLimits s) = Some w ->
  (forall s', I s' -> I (set_metrics bump s')) ->
  (requests (Spec.reset (env_now E (nowCalls s)) (env_now E (S (nowCalls s))) w)
   <? limit (Spec.reset (env_now E (nowCalls s)) (env_now E (S (nowCalls s))) w)) = true ->
  I s -> I (reserved E provider bump w s).
Proof.
  intros Hw Hbump Hroom%Z.ltb_lt Hs. unfold reserved. apply Hbump.
  apply (respects_reserve I HI provider
           (Spec.reset (env_now E (nowCalls s)) (env_now E (S (nowCalls s))) w));
    [|exact Hroom|by apply after_check_respects].
  cbn. by apply (rateLimit_of_reset provider w).
Qed.

Lemma keeps_callOpenAI messages model options :
  keeps I (callOpenAI E messages model options).
Proof.
  intros s Hs. rewrite callOpenAI_run. cbn zeta.
  destruct (key_missing _); [done|].
  destruct (requests _ <? limit _) eqn:Hroom; cbn [snd].
  - apply (respects_sent I HI).
    apply reserved_respects; [done|apply (respects_openaiRequests I HI)|done|done].
  - by apply after_check_respects.
Qed.

Lemma keeps_callAnthropic messages model options :
  keeps I (callAnthropic E messages model options).
Proof.
  intros s Hs. rewrite callAnthropic_run. cbn zeta.
  destruct (key_missing _); [done|].
  destruct (requests _ <? limit _) eqn:Hroom; cbn [snd].
  - assert (I (reserved E "anthropic" incr_anthropicRequests
                 (rl_anthropic (rateLimits s)) s)) as Hres
      by (apply reserved_respects;
          [done|apply (respects_anthropicRequests I HI)|done|done]).
    destruct (all_defined messages); cbn [snd]; [|done].
    by apply (respects_sent I HI).
  - by apply after_check_respects.
Qed.

Lemma keeps_callAPI provider messages model options :
  keeps I (callAPI E provider messages model options).
Proof.
  apply keeps_try_catch.
  - repeat case_decide;
      [apply keeps_callOpenAI | apply keeps_callAnthropic | apply keeps_throw].
  - intros e. apply keeps_bind; [|intros _; apply keeps_throw].
    intros s Hs. by apply (respects_errors I HI).
Qed.

Lemma keeps_executeAgent agentId message options :
  keeps I (executeAgent E agentId message options).
Proof.
  apply keeps_bind; [apply keeps_gets|]. intros [agent|]; [|apply keeps_throw].
  apply keeps_bind; [apply keeps_callAPI|]. intros response.
  apply keeps_bind.
  { unfold first_message.
    destruct (rj_choices response) as [[|c cs]|];
      [apply keeps_throw | apply keeps_ret | apply keeps_throw]. }
  intros am. apply keeps_bind.
  { intros s Hs. by apply (respects_agents I HI). }
  intros _. destruct am; [apply keeps_ret | apply keeps_throw].
Qed.

Lemma keeps_createAgent config : keeps I (createAgent E config).
Proof.
  apply keeps_bind; [apply keeps_uuidv4|]. intros id.
  apply keeps_bind; [apply keeps_Date_now|]. intros created.
  apply keeps_bind; [|intros _; apply keeps_ret].
  intros s Hs. by apply (respects_agents I HI).
Qed.

Lemma keeps_turn agentIds i agentId l : keeps I (turn E agentIds i agentId l).
Proof.
  apply keeps_try_catch.
  - apply keeps_bind; [apply keeps_executeAgent|]. intros result.
    apply keeps_bind; [apply keeps_Date_now|]. intros t. apply keeps_ret.
  - intros e. apply keeps_bind; [apply keeps_Date_now|]. intros t. apply keeps_ret.
Qed.

Lemma keeps_round agentIds i todo l : keeps I (round E agentIds i todo l).
Proof.
  revert l. induction todo as [|agentId todo IH]; intros l; cbn.
  - apply keeps_ret.
  - apply keeps_bind; [apply keeps_turn | apply IH].
Qed.

Lemma keeps_rounds agentIds n i l : keeps I (rounds E agentIds n i l).
Proof.
  revert i l. induction n as [|n IH]; intros i l; cbn.
  - apply keeps_ret.
  - apply keeps_bind; [apply keeps_round | intros l'; apply IH].
Qed.

Lemma keeps_collaborateAgents agentIds goal iterations :
  keeps I (collaborateAgents E agentIds goal iterations).
Proof.
  apply keeps_bind; [apply keeps_uuidv4|]. intros id.
  apply keeps_bind; [apply keeps_Date_now|]. intros t0.
  apply keeps_bind; [apply keeps_rounds|]. intros l.
  apply keeps_bind; [apply keeps_Date_now|]. intros t1. apply keeps_ret.
Qed.

End Frame.

(** ** Quotas *)

Lemma rateLimit_of_update provider provider' f r w' :
  rateLimit_of provider' (update_rateLimit provider f r) = Some w' ->
  (provider' = provider /\ exists w, rateLimit_of provider r = Some w /\ w' = f w)
  \/ rateLimit_of provider' r = Some w'.
Proof.
  unfold rateLimit_of, update_rateLimit.
  repeat case_decide; simplify_eq; cbn; intros [= <-]; eauto.
Qed.

Lemma within_limits_respects : Respects within_limits.
Proof.
  split; try (by intros s Hs; apply Hs); try (by intros ? s Hs; apply Hs).
  - intros provider t w s Hw Hs provider' w' Hw'. cbn in Hw'.
    apply rateLimit_of_update in Hw' as [(_ & w0 & _ & ->) | Hw']; [cbn; lia|].
    by apply (Hs provider').
  - intros provider w s Hw Hroom Hs provider' w' Hw'. cbn in Hw'.
    apply rateLimit_of_update in Hw' as [(_ & w0 & Hw0 & ->) | Hw'].
    + assert (w0 = w) as -> by congruence.
      pose proof (Hs provider w Hw). cbn. lia.
    + by apply (Hs provider').
Qed.

Lemma startup_within_limits E openai_key anthropic_key openai_limit anthropic_limit :
  within_limits (startup E openai_key anthropic_key openai_limit anthropic_limit).
Proof.
  intros provider w. unfold rateLimit_of. cbn.
  repeat case_decide; intros [= <-]; cbn; lia.
Qed.

(** X1.  No window ever counts more requests than its limit allows: the
    counts are within their limits when the process starts, and calling a
    provider, running an agent or running a collaboration keeps them so,
    whatever the clock and the providers do. *)
Theorem quota_never_exceeded E :
  (forall openai_key anthropic_key openai_limit anthropic_limit,
     within_limits (startup E openai_key anthropic_key openai_limit anthropic_limit))
  /\ (forall provider messages model options,
        keeps within_limits (callAPI E provider messages model options))
  /\ (forall agentId message options,
        keeps within_limits (executeAgent E agentId message options))
  /\ (forall agentIds goal iterations,
        keeps within_limits (collaborateAgents E agentIds goal iterations)).
Proof.
  split; [apply startup_within_limits|].
  split; [apply keeps_callAPI, within_limits_respects|].
  split; [apply keeps_executeAgent, within_limits_respects|].
  apply keeps_collaborateAgents, within_limits_respects.
Qed.

Lemma quota_never_exceeded_witness :
  let E := Scenario.E_up in
  within_limits (collaborateAgents E Scenario.pair "plan" 2
                   (Scenario.two_agents E "anthropic" (Scenario.limit1 E)).2).2.
Proof.
  intros E.
  destruct (quota_never_exceeded E) as (Hstart & _ & _ & Hrun).
  assert (Hsetup : keeps within_limits (Scenario.two_agents E "anthropic")).
  { apply keeps_bind; [apply keeps_createAgent, within_limits_respects|].
    intros _. apply keeps_bind; [apply keeps_createAgent, within_limits_respects|].
    intros _. apply keeps_ret. }
  apply Hrun, Hsetup, Hstart.
Defined.

Lemma limits_are_respects lo la : Respects (limits_are lo la).
Proof.
  split; try (by intros s Hs; apply Hs); try (by intros ? s Hs; apply Hs).
  - intros provider t w s Hw [Ho Ha]. unfold limits_are. cbn.
    unfold rateLimit_of in Hw. unfold update_rateLimit.
    repeat case_decide; simplify_eq; cbn; done.
  - intros provider w s Hw _ [Ho Ha]. unfold limits_are. cbn.
    unfold update_rateLimit. repeat case_decide; cbn; done.
Qed.

(** X2.  The limit of a window is fixed when the process starts: no call,
    agent run or collaboration changes it, be the window reset or not. *)
Theorem limits_never_change E agentIds goal iterations agentId message options s :
  let after_run := (collaborateAgents E agentIds goal iterations s).2 in
  let after_exec := (executeAgent E agentId message options s).2 in
  (limit (rl_openai (rateLimits after_run)) = limit (rl_openai (rateLimits s))
   /\ limit (rl_anthropic (rateLimits after_run)) = limit (rl_anthropic (rateLimits s)))
  /\ (limit (rl_openai (rateLimits after_exec)) = limit (rl_openai (rateLimits s))
      /\ limit (rl_anthropic (rateLimits after_exec)) = limit (rl_anthropic (rateLimits s))).
Proof.
  cbn zeta.
  pose proof (limits_are_respects (limit (rl_openai (rateLimits s)))
                (limit (rl_anthropic (rateLimits s)))) as HI.
  split.
  - by apply (keeps_collaborateAgents E _ HI).
  - by apply (keeps_executeAgent E _ HI).
Qed.

(** A window whose limit is not positive lets nothing through. *)
Lemma no_room now now' w :
  0 <= requests w -> limit w <= 0 ->
  (requests (Spec.reset now now' w) <? limit (Spec.reset now now' w)) = false.
Proof.
  intros Hreq Hlim. apply Z.ltb_ge. unfold Spec.reset.
  destruct (resetTime w <? now); cbn; lia.
Qed.

(** X3.  [parseInt(...) || 60] never yields 0: an unset, unparsable or zero
    limit becomes 60, any other number is taken as it is.  A negative limit
    therefore stays, and a provider whose limit is not positive is closed:
    from a state within its limits, every call with a configured key throws
    the rate-limit error and sends nothing. *)
Theorem nonpositive_limit_closes_provider E messages model options s :
  (forall parsed, limit_or_60 parsed <> 0
                  /\ (parsed = None \/ parsed = Some 0 -> limit_or_60 parsed = 60)
                  /\ (forall n, parsed = Some n -> n <> 0 -> limit_or_60 parsed = n))
  /\ (within_limits s ->
      key_missing (openaiKey s) = false ->
      limit (rl_openai (rateLimits s)) <= 0 ->
      (callOpenAI E messages model options s).1 = Throw (Error "OpenAI rate limit exceeded")
      /\ sent (callOpenAI E messages model options s).2 = sent s)
  /\ (within_limits s ->
      key_missing (anthropicKey s) = false ->
      limit (rl_anthropic (rateLimits s)) <= 0 ->
      (callAnthropic E messages model options s).1
        = Throw (Error "Anthropic rate limit exceeded")
      /\ sent (callAnthropic E messages model options s).2 = sent s).
Proof.
  split.
  { intros [n|]; cbn.
    - destruct (n =? 0) eqn:Hn.
      + apply Z.eqb_eq in Hn as ->. split; [done|]. split; [done|]. by intros ? [= <-].
      + apply Z.eqb_neq in Hn. split; [done|]. split.
        * intros [|[= ->]]; done.
        * by intros ? [= <-].
    - split; [done|]. split; [done|]. by intros. }
  split; intros Hs Hkey Hlim.
  - rewrite callOpenAI_run, Hkey. cbn zeta.
    rewrite no_room; [done| |done]. by apply (Hs "openai").
  - rewrite callAnthropic_run, Hkey. cbn zeta.
    rewrite no_room; [done| |done]. by apply (Hs "anthropic").
Qed.

Lemma nonpositive_limit_closes_provider_witness :
  let E := Scenario.E_up in
  let s := startup E (Some "sk-test") None (Some (-5)) None in
  (callOpenAI E [] "gpt-4" [] s).1 = Throw (Error "OpenAI rate limit exceeded").
Proof.
  intros E s.
  destruct (nonpositive_limit_closes_provider E [] "gpt-4" [] s) as (_ & H & _).
  destruct H as [H _]; [apply startup_within_limits | reflexivity | cbn; lia | exact H].
Defined.

(** ** The error counter *)

Lemma callOpenAI_errors E messages model options s :
  errors (metrics (callOpenAI E messages model options s).2) = errors (metrics s).
Proof.
  rewrite callOpenAI_run. cbn zeta.
  destruct (key_missing _); [done|]. by destruct (requests _ <? limit _).
Qed.

Lemma callAnthropic_errors E messages model options s :
  errors (metrics (callAnthropic E messages model options s).2) = errors (metrics s).
Proof.
  rewrite callAnthropic_run. cbn zeta.
  destruct (key_missing _); [done|]. destruct (requests _ <? limit _); [|done].
  by destruct (all_defined messages).
Qed.

Lemma callAPI_errors E provider messages model options s :
  let r := callAPI E provider messages model options s in
  errors (metrics r.2)
  = errors (metrics s) + match r.1 with Throw _ => 1 | Return _ => 0 end.
Proof.
  cbn zeta. unfold callAPI, try_catch. repeat case_decide.
  - pose proof (callOpenAI_errors E messages model options s) as He.
    destruct (callOpenAI E messages model options s) as [[v|e] s1]; cbn in *; lia.
  - pose proof (callAnthropic_errors E messages model options s) as He.
    destruct (callAnthropic E messages model options s) as [[v|e] s1]; cbn in *; lia.
  - done.
Qed.

(** X4.  [callAPI] passes on what the adapter returned or threw, and
    [metrics.errors] grows by one exactly when it throws.  Through
    [executeAgent] the counter grows by one exactly when the provider call
    threw: an unknown agent id and a reply that cannot be read make
    [executeAgent] throw without being counted. *)
Theorem error_counter_counts_provider_failures E messages model options
    agentId message context_options s :
  (forall provider,
     let r := callAPI E provider messages model options s in
     errors (metrics r.2)
     = errors (metrics s) + match r.1 with Throw _ => 1 | Return _ => 0 end)
  /\ (callAPI E "openai" messages model options s).1
     = (callOpenAI E messages model options s).1
  /\ (callAPI E "anthropic" messages model options s).1
     = (callAnthropic E messages model options s).1
  /\ errors (metrics (executeAgent E agentId message context_options s).2)
     = errors (metrics s)
       + match agents s !! agentId with
         | None => 0
         | Some agent =>
             match (callAPI E (ag_provider agent)
                      ([Some {| msg_role := "system";
                                msg_content := ag_instructions agent |}]
                       ++ ag_memory agent
                       ++ [Some {| msg_role := "user"; msg_content := message |}])
                      (ag_model agent) (default [] context_options) s).1 with
             | Throw _ => 1
             | Return _ => 0
             end
         end.
Proof.
  split; [intros provider; apply callAPI_errors|].
  split.
  { unfold callAPI, try_catch. rewrite decide_True by done.
    by destruct (callOpenAI E messages model options s) as [[v|e] s1]. }
  split.
  { unfold callAPI, try_catch. rewrite decide_False by done.
    rewrite decide_True by done.
    by destruct (callAnthropic E messages model options s) as [[v|e] s1]. }
  rewrite executeAgent_run.
  destruct (agents s !! agentId) as [agent|]; [|cbn; lia]. cbn zeta.
  match goal with |- context [callAPI ?E ?p ?ms ?m ?o ?s] =>
    pose proof (callAPI_errors E p ms m o s) as He;
    destruct (callAPI E p ms m o s) as [[response|e] s1] end;
    cbn in He; cbn [fst snd]; [|done].
  destruct (rj_choices response) as [[|c cs]|]; [done| |done].
  by destruct (ch_message c).
Qed.

(** ** The registry *)

Lemma set_memory_same agent : set_memory (ag_memory agent) agent = agent.
Proof. by destruct agent. Qed.

(** X5.  [executeAgent] neither adds nor removes an agent, leaves every
    other agent as it is, and changes of the agent it runs at most the
    memory: id, name, role, provider, model, instructions and creation time
    stay. *)
Theorem executeAgent_frame E agentId message options s :
  let s' := (executeAgent E agentId message options s).2 in
  dom (agents s') = dom (agents s)
  /\ (forall id, id <> agentId -> agents s' !! id = agents s !! id)
  /\ (forall agent, agents s !! agentId = Some agent ->
        exists memory, agents s' !! agentId = Some (set_memory memory agent)).
Proof.
  cbn zeta.
  destruct (executeAgent_agents E agentId message options s)
    as [[-> _] | (a & am & Ha & ->)].
  - split; [done|]. split; [done|]. intros agent Hag.
    exists (ag_memory agent). by rewrite set_memory_same.
  - split; [by apply dom_insert_lookup_L|].
    split; [intros id Hid; by rewrite lookup_insert_ne|].
    intros agent Hag. assert (a = agent) as -> by congruence.
    eexists. apply lookup_insert_eq.
Qed.

(** ** Agents that cannot run *)

Lemma executeAgent_not_found E agentId message options s :
  agents s !! agentId = None ->
  executeAgent E agentId message options s = (Throw (Error "Agent not found"), s).
Proof. intros Hag. by rewrite executeAgent_run, Hag. Qed.

(** X6.  An agent created with a provider that is neither "openai" nor
    "anthropic" is registered but can never be run: every [executeAgent]
    on it throws "Unsupported provider", counts one error, and leaves the
    agent, the quotas and the network alone. *)
Theorem unsupported_provider_never_runs E config p message options s :
  cfg_provider config = Some p ->
  p <> "" -> p <> "openai" -> p <> "anthropic" ->
  exists agent s1,
    createAgent E config s = (Return agent, s1)
    /\ executeAgent E (ag_id agent) message options s1
       = (Throw (Error ("Unsupported provider: " +:+ p)), set_metrics incr_errors s1).
Proof.
  intros Hp Hne Ho Ha. eexists _, _. split; [apply createAgent_run|].
  rewrite executeAgent_run. cbn. rewrite lookup_insert_eq. cbn.
  rewrite Hp. cbn. rewrite decide_False by done.
  by rewrite callAPI_unsupported.
Qed.

Lemma unsupported_provider_never_runs_witness :
  let E := Scenario.E_up in
  exists agent s1,
    createAgent E (Scenario.config_of "Cy" "gemini") (Scenario.openai_only E)
    = (Return agent, s1)
    /\ (executeAgent E (ag_id agent) "hello" None s1).1
       = Throw (Error "Unsupported provider: gemini").
Proof.
  intros E.
  destruct (unsupported_provider_never_runs E (Scenario.config_of "Cy" "gemini")
              "gemini" "hello" None (Scenario.openai_only E))
    as (agent & s1 & Hc & Hx); [reflexivity | discriminate..|].
  exists agent, s1. split; [exact Hc|]. by rewrite Hx.
Defined.

(** A run over ids that are not registered only reads the clock. *)
Lemma iter_tick_fields n s :
  agents (Nat.iter n tick s) = agents s
  /\ sent (Nat.iter n tick s) = sent s
  /\ rateLimits (Nat.iter n tick s) = rateLimits s
  /\ metrics (Nat.iter n tick s) = metrics s
  /\ uuidCalls (Nat.iter n tick s) = uuidCalls s
  /\ nowCalls (Nat.iter n tick s) = (n + nowCalls s)%nat.
Proof.
  induction n as [|n (Ha & Hs & Hr & Hm & Hu & Hn)]; [done|].
  rewrite !Nat.iter_succ. unfold tick at 1 3 5 7 9 11.
  cbn [agents sent rateLimits metrics uuidCalls nowCalls].
  by rewrite Ha, Hs, Hr, Hm, Hu, Hn.
Qed.

Lemma iter_tick_shift n s : Nat.iter n tick (tick s) = tick (Nat.iter n tick s).
Proof. induction n as [|n IH]; [done|]. by rewrite !Nat.iter_succ, IH. Qed.

Lemma round_not_found E agentIds i todo l s :
  (forall id, id ∈ todo -> agents s !! id = None) ->
  exists new,
    round E agentIds i todo l s
    = (Return {| conv := conv l ++ new; currentMessage := currentMessage l |},
       Nat.iter (length todo) tick s)
    /\ length new = length todo
    /\ Forall (fun r => turn_error r = Some "Agent not found"
                        /\ turn_iteration r = i + 1) new.
Proof.
  revert l s. induction todo as [|agentId todo IH]; intros l s Hids.
  - exists []. cbn. rewrite app_nil_r. by destruct l.
  - cbn [round]. rewrite bind_run, turn_run.
    rewrite executeAgent_not_found by (apply Hids; left).
    cbn beta iota zeta.
    match goal with |- context [round _ _ _ _ ?l1 _] =>
      destruct (IH l1 (tick s)) as (new & Hrun & Hlen & Hall) end.
    { intros id Hid. cbn. apply Hids. by right. }
    eexists (_ :: new).
    change ((Date_now E s).2) with (tick s). rewrite Hrun. cbn.
    rewrite <- app_assoc, iter_tick_shift. cbn.
    split; [done|]. split; [by rewrite Hlen|]. by constructor.
Qed.

Lemma rounds_not_found E agentIds n i l s :
  (forall id, id ∈ agentIds -> agents s !! id = None) ->
  exists new,
    rounds E agentIds n i l s
    = (Return {| conv := conv l ++ new; currentMessage := currentMessage l |},
       Nat.iter (n * length agentIds) tick s)
    /\ length new = (n * length agentIds)%nat
    /\ Forall (fun r => turn_error r = Some "Agent not found") new.
Proof.
  revert i l s. induction n as [|n IH]; intros i l s Hids.
  - exists []. cbn. rewrite app_nil_r. by destruct l.
  - cbn [rounds]. rewrite bind_run.
    destruct (round_not_found E agentIds i agentIds l s Hids)
      as (new1 & -> & Hlen1 & Hall1).
    cbn beta iota.
    match goal with |- context [rounds _ _ _ _ ?l1 ?s1] =>
      destruct (IH (i + 1) l1 s1) as (new & -> & Hlen & Hall) end.
    { intros id Hid. destruct (iter_tick_fields (length agentIds) s) as [-> _].
      by apply Hids. }
    exists (new1 ++ new). cbn. rewrite <- app_assoc.
    rewrite <- Nat.iter_add.
    replace (n * length agentIds + length agentIds)%nat
      with (length agentIds + n * length agentIds)%nat by lia.
    split; [done|]. split; [rewrite length_app; lia|].
    apply Forall_app. split; [|done].
    eapply Forall_impl; [exact Hall1|]. by intros r [Hr _].
Qed.

(** X7.  A collaboration over ids none of which is registered returns a
    completed run in which every one of the N*K records carries the error
    "Agent not found"; it sends nothing, takes no quota, counts no error
    and leaves the registry as it is. *)
Theorem collaborate_unknown_agents E agentIds goal iterations s :
  (forall id, id ∈ agentIds -> agents s !! id = None) ->
  exists c s',
    collaborateAgents E agentIds goal iterations s = (Return c, s')
    /\ length (conversation c) = (length agentIds * Z.to_nat iterations)%nat
    /\ Forall (fun r => turn_error r = Some "Agent not found") (conversation c)
    /\ (exists t, completed c = Some t)
    /\ agents s' = agents s /\ sent s' = sent s
    /\ rateLimits s' = rateLimits s /\ metrics s' = metrics s.
Proof.
  intros Hids. unfold collaborateAgents, bind, uuidv4, Date_now, ret. cbn.
  match goal with |- context [rounds _ _ _ _ ?l0 ?s0] =>
    destruct (rounds_not_found E agentIds (Z.to_nat iterations) 0 l0 s0)
      as (new & -> & Hlen & Hall) end; [done|].
  eexists _, _. split; [reflexivity|]. cbn.
  destruct (iter_tick_fields (Z.to_nat iterations * length agentIds)
              (tick (drawn s))) as (Ha & Hs & Hr & Hm & _).
  split; [lia|]. split; [done|]. split; [by eexists|]. done.
Qed.

Lemma collaborate_unknown_agents_witness :
  let E := Scenario.E_up in
  exists c s',
    collaborateAgents E Scenario.pair "plan" 2 (Scenario.openai_only E) = (Return c, s')
    /\ Forall (fun r => turn_error r = Some "Agent not found") (conversation c)
    /\ sent s' = [].
Proof.
  intros E.
  destruct (collaborate_unknown_agents E Scenario.pair "plan" 2 (Scenario.openai_only E))
    as (c & s' & Hrun & _ & Hall & _ & _ & Hsent & _).
  { intros id _. reflexivity. }
  exists c, s'. split; [exact Hrun|]. split; [exact Hall | exact Hsent].
Defined.

(** ** What goes to the network *)

Lemma sends_pure {A} (m : M A) :
  (forall s, sent (m s).2 = sent s) -> sends_at_most 0 m.
Proof. intros Hm s. exists []. by rewrite Hm, app_nil_r. Qed.

Lemma sends_weaken {A} n n' (m : M A) :
  (n <= n')%nat -> sends_at_most n m -> sends_at_most n' m.
Proof. intros Hn Hm s. destruct (Hm s) as (extra & ? & ?). exists extra. split; [done|lia]. Qed.

Lemma sends_bind {A B} n k (m : M A) (f : A -> M B) :
  sends_at_most n m -> (forall a, sends_at_most k (f a)) ->
  sends_at_most (n + k) (bind m f).
Proof.
  intros Hm Hf s. unfold bind. destruct (Hm s) as (e1 & He1 & Hl1).
  destruct (m s) as [[a|e] s1]; cbn in *.
  - destruct (Hf a s1) as (e2 & He2 & Hl2). exists (e1 ++ e2).
    rewrite He2, He1, <- app_assoc. split; [done|]. rewrite length_app. lia.
  - exists e1. split; [done|lia].
Qed.

Lemma sends_try_catch {A} n k (m : M A) (h : JsError -> M A) :
  sends_at_most n m -> (forall e, sends_at_most k (h e)) ->
  sends_at_most (n + k) (try_catch m h).
Proof.
  intros Hm Hh s. unfold try_catch. destruct (Hm s) as (e1 & He1 & Hl1).
  destruct (m s) as [[a|e] s1]; cbn in *.
  - exists e1. split; [done|lia].
  - destruct (Hh e s1) as (e2 & He2 & Hl2). exists (e1 ++ e2).
    rewrite He2, He1, <- app_assoc. split; [done|]. rewrite length_app. lia.
Qed.

Ltac sends_nothing := exists []; rewrite app_nil_r; split; [done | cbn; lia].

Lemma callOpenAI_sends E messages model options :
  sends_at_most 1 (callOpenAI E messages model options).
Proof.
  intros s. rewrite callOpenAI_run. cbn zeta.
  destruct (key_missing _); [sends_nothing|].
  destruct (requests _ <? limit _); cbn.
  - eexists [_]. split; [done | cbn; lia].
  - sends_nothing.
Qed.

Lemma callAnthropic_sends E messages model options :
  sends_at_most 1 (callAnthropic E messages model options).
Proof.
  intros s. rewrite callAnthropic_run. cbn zeta.
  destruct (key_missing _); [sends_nothing|].
  destruct (requests _ <? limit _); cbn.
  - destruct (all_defined messages); cbn.
    + eexists [_]. split; [done | cbn; lia].
    + sends_nothing.
  - sends_nothing.
Qed.

Lemma callAPI_sends E provider messages model options :
  sends_at_most 1 (callAPI E provider messages model options).
Proof.
  apply (sends_try_catch 1 0).
  - repeat case_decide;
      [apply callOpenAI_sends | apply callAnthropic_sends | by apply sends_weaken with 0%nat; [lia|apply sends_pure]].
  - intros e. apply (sends_bind 0 0); [by apply sends_pure|].
    intros _. by apply sends_pure.
Qed.

Lemma executeAgent_sends E agentId message options :
  sends_at_most 1 (executeAgent E agentId message options).
Proof.
  apply (sends_bind 0 1); [by apply sends_pure|]. intros [agent|].
  - apply (sends_bind 1 0); [apply callAPI_sends|]. intros response.
    apply (sends_bind 0 0).
    { unfold first_message. by destruct (rj_choices response) as [[|c cs]|]; apply sends_pure. }
    intros am. apply (sends_bind 0 0); [by apply sends_pure|].
    intros _. by destruct am; apply sends_pure.
  - apply sends_weaken with 0%nat; [lia|]. by apply sends_pure.
Qed.

Lemma turn_sends E agentIds i agentId l :
  sends_at_most 1 (turn E agentIds i agentId l).
Proof.
  apply (sends_try_catch 1 0).
  - apply (sends_bind 1 0); [apply executeAgent_sends|]. intros result.
    apply (sends_bind 0 0); [by apply sends_pure|]. intros t. by apply sends_pure.
  - intros e. apply (sends_bind 0 0); [by apply sends_pure|].
    intros t. by apply sends_pure.
Qed.

Lemma round_sends E agentIds i todo l :
  sends_at_most (length todo) (round E agentIds i todo l).
Proof.
  revert l. induction todo as [|agentId todo IH]; intros l; cbn [round length].
  - by apply sends_pure.
  - apply (sends_bind 1 (length todo)); [apply turn_sends | apply IH].
Qed.

Lemma rounds_sends E agentIds n i l :
  sends_at_most (n * length agentIds) (rounds E agentIds n i l).
Proof.
  revert i l. induction n as [|n IH]; intros i l; cbn [rounds].
  - by apply sends_pure.
  - apply (sends_bind (length agentIds) (n * length agentIds));
      [apply round_sends | intros l'; apply IH].
Qed.

(** X8.  Requests are only ever appended to what was sent before, at most
    one per call of [executeAgent] and so at most one per agent and
    iteration of a collaboration. *)
Theorem one_request_per_turn E agentIds goal iterations agentId message options :
  sends_at_most 1 (executeAgent E agentId message options)
  /\ sends_at_most (length agentIds * Z.to_nat iterations)
       (collaborateAgents E agentIds goal iterations).
Proof.
  split; [apply executeAgent_sends|].
  apply sends_weaken with (0 + (0 + (Z.to_nat iterations * length agentIds + (0 + 0))))%nat;
    [lia|].
  apply sends_bind; [by apply sends_pure|]. intros id.
  apply sends_bind; [by apply sends_pure|]. intros t0.
  apply sends_bind; [apply rounds_sends|]. intros l.
  apply sends_bind; [by apply sends_pure|]. intros t1. by apply sends_pure.
Qed.

(** The entries of a memory as [JSON.stringify] writes them. *)
Lemma renders_entries (memory : list Entry) : Forall2 renders memory (map entry_json memory).
Proof.
  induction memory as [|[m|] memory IH]; cbn; constructor; try done.
  by eexists.
Qed.

(** X9.  Running an agent of provider "openai" whose key is configured and
    whose window has room, with options that carry no [messages] member of
    their own, sends exactly one request, to the chat completions URL, with
    the key as bearer token.  Its [messages] array is the system
    instruction, then one entry per memory entry in order, with that
    entry's role and content, then the new user message: this whatever the
    provider then answers. *)
Theorem executeAgent_request E agentId message options s agent key :
  agents s !! agentId = Some agent ->
  ag_provider agent = "openai" ->
  openaiKey s = Some key -> key <> "" ->
  (Spec.checkAndReserve (env_now E (nowCalls s)) (env_now E (S (nowCalls s)))
     (rl_openai (rateLimits s))).1 = true ->
  obj_get "messages" (default [] options) = None ->
  exists req fields middle,
    sent (executeAgent E agentId message options s).2 = sent s ++ [req]
    /\ req_url req = "https://api.openai.com/v1/chat/completions"
    /\ req_headers req = [("Authorization", "Bearer " +:+ key);
                          ("Content-Type", "application/json")]
    /\ req_body req = JObj fields
    /\ obj_get "messages" fields
       = Some (JArr ([JObj [("role", JStr "system");
                            ("content", JStr (ag_instructions agent))]]
                     ++ middle
                     ++ [JObj [("role", JStr "user"); ("content", JStr message)]]))
    /\ Forall2 renders (ag_memory agent) middle.
Proof.
  intros Hag Hprov Hkey Hne Hroom%checkAndReserve_true Hown.
  exists (openai_request key
            ([Some {| msg_role := "system"; msg_content := ag_instructions agent |}]
             ++ ag_memory agent
             ++ [Some {| msg_role := "user"; msg_content := message |}])
            (ag_model agent) (default [] options)).
  eexists _, (map entry_json (ag_memory agent)).
  split.
  { rewrite executeAgent_run, Hag. cbn zeta. rewrite Hprov.
    unfold callAPI, try_catch. rewrite decide_True by done.
    rewrite callOpenAI_run, Hkey. cbn zeta.
    replace (key_missing (Some key)) with false
      by (cbn; by rewrite bool_decide_eq_false_2).
    rewrite Hroom.
    destruct (openai_outcome _) as [response|e]; [|done].
    destruct (rj_choices response) as [[|c cs]|]; [done| |done].
    by destruct (ch_message c). }
  split; [done|]. split; [done|]. split; [reflexivity|].
  split; [|apply renders_entries].
  rewrite obj_get_spread by done. cbn. by rewrite map_app.
Qed.

Lemma executeAgent_request_witness :
  let E := Scenario.E_down in
  let s := (createAgent E (Scenario.config_of "Ada" "openai")
              (Scenario.openai_only E)).2 in
  exists req,
    sent (executeAgent E "agent-0" "hello" None s).2 = [req]
    /\ req_url req = "https://api.openai.com/v1/chat/completions".
Proof.
  intros E s.
  destruct (executeAgent_request E "agent-0" "hello" None s
    {| ag_id := "agent-0"; ag_name := "Ada"; ag_role := "Assistant";
       ag_provider := "openai"; ag_model := "gpt-4";
       ag_instructions := "You are a helpful AI assistant."; ag_memory := [];
       ag_created := 1003 |} "sk-test" eq_refl eq_refl eq_refl
    ltac:(discriminate) eq_refl eq_refl)
    as (req & fields & middle & Hsent & Hurl & _).
  exists req. split; [exact Hsent | exact Hurl].
Defined.

(** ** Caller options *)

Lemma obj_get_absent k (o : list (string * Json)) :
  k ∉ map fst o -> obj_get k o = None.
Proof.
  induction o as [|[k' v'] o IH]; cbn; [done|].
  intros Hk. destruct (decide (k = k')) as [->|Hne].
  - exfalso. apply Hk. left.
  - apply IH. intros Hin. apply Hk. by right.
Qed.

(** With one entry per key, a spread leaves each of its keys at its own
    value. *)
Lemma obj_get_spread_own k v o extra :
  NoDup (map fst extra) ->
  obj_get k extra = Some v -> obj_get k (obj_spread o extra) = Some v.
Proof.
  unfold obj_spread. revert o.
  induction extra as [|[k' v'] extra IH]; intros o Hnd; cbn; [done|].
  apply NoDup_cons in Hnd as [Hk' Hnd].
  destruct (decide (k = k')) as [->|Hne].
  - intros [= ->].
    change (fold_left _ extra ?o') with (obj_spread o' extra).
    rewrite obj_get_spread by by apply obj_get_absent.
    rewrite obj_get_set. by rewrite decide_True.
  - by apply IH.
Qed.

(** X10.  In the body of both providers' requests the caller's options
    (an object, so one entry per key) are written last, so each option is
    sent under its own key with the caller's value, also where a default
    was computed for that key: a temperature of 0 is sent as 0.  Where the caller gives none,
    [temperature] is 0.7 and [max_tokens] is the caller's [maxTokens] if
    that is truthy and 2000 otherwise. *)
Theorem caller_options_win (messages : list Entry) (ms1 ms2 : list Message) model
    (options : Options) :
  NoDup (map fst options) ->
  forall fields,
    JObj fields = openai_body messages model options
    \/ JObj fields = anthropic_body ms1 ms2 model options ->
    (forall k v, obj_get k options = Some v -> obj_get k fields = Some v)
    /\ (obj_get "temperature" options = None ->
          obj_get "temperature" fields = Some (JNum (7 # 10)))
    /\ (obj_get "max_tokens" options = None ->
          obj_get "max_tokens" fields
          = Some (js_or (obj_get "maxTokens" options) (JNum (2000 # 1))))
    /\ (obj_get "model" options = None -> obj_get "model" fields = Some (JStr model)).
Proof.
  intros Hnd fields [[= ->] | [= ->]];
    (split; [intros k v Hk; by apply obj_get_spread_own|]);
    (split; [intros Hk; rewrite obj_get_spread by done; cbn; by rewrite Hk|]);
    (split; intros Hk; by rewrite obj_get_spread).
Qed.

Lemma caller_options_win_witness :
  exists fields,
    JObj fields
    = openai_body [] "gpt-4" [("temperature", JNum (0 # 1)); ("maxTokens", JNum (0 # 1))]
    /\ obj_get "temperature" fields = Some (JNum (0 # 1))
    /\ obj_get "max_tokens" fields = Some (JNum (2000 # 1))
    /\ obj_get "maxTokens" fields = Some (JNum (0 # 1)).
Proof.
  eexists. split; [reflexivity|].
  match goal with |- obj_get _ ?f = _ /\ _ =>
    destruct (caller_options_win [] [] [] "gpt-4"
                [("temperature", JNum (0 # 1)); ("maxTokens", JNum (0 # 1))]
                ltac:(apply (bool_decide_unpack _); vm_compute; exact I) f (or_introl eq_refl))
      as (Hown & _ & Hmax & _) end.
  split; [by apply Hown|]. split; [by apply Hmax | by apply Hown].
Defined.

(** ** Timestamps *)

Lemma StronglySorted_snoc {A} (R : A -> A -> Prop) l x :
  StronglySorted R l -> Forall (fun y => R y x) l -> StronglySorted R (l ++ [x]).
Proof.
  induction 1 as [|y l Hl IH Hy]; intros Hx; cbn.
  - repeat constructor.
  - apply Forall_cons in Hx as [Hyx Hx]. constructor; [by apply IH|].
    apply Forall_app. split; [done|]. by constructor.
Qed.

Lemma clock_only_advances n : Respects (fun s => (n <= nowCalls s)%nat).
Proof.
  split; try (by intros s Hs; cbn; lia); by intros.
Qed.

Section Stamps.

Variable E : Env.
Hypothesis monotone : forall i j, (i <= j)%nat -> env_now E i <= env_now E j.

Lemma stamped_snoc n0 l s l' s' r k :
  stamped E n0 l s ->
  (nowCalls s <= k)%nat -> nowCalls s' = S k ->
  conv l' = conv l ++ [r] -> turn_timestamp r = env_now E k ->
  stamped E n0 l' s'.
Proof.
  intros (Hn0 & Hsorted & Hall) Hk Hs' Hconv Hr. unfold stamped.
  rewrite Hconv, Hs', map_app. cbn. split; [lia|]. split.
  - apply StronglySorted_snoc; [done|]. apply Forall_map.
    eapply Forall_impl; [exact Hall|].
    intros r0 (k0 & Hk0 & Hr0). cbn. rewrite Hr, Hr0. apply monotone. lia.
  - apply Forall_app. split.
    + eapply Forall_impl; [exact Hall|].
      intros r0 (k0 & Hk0 & Hr0). exists k0. split; [lia|done].
    + constructor; [|done]. exists k. split; [lia|done].
Qed.

Lemma turn_stamped n0 agentIds i agentId l s :
  stamped E n0 l s ->
  exists l' s', turn E agentIds i agentId l s = (Return l', s') /\ stamped E n0 l' s'.
Proof.
  intros Hl. rewrite turn_run.
  pose proof (keeps_executeAgent E _ (clock_only_advances (nowCalls s))
                agentId (currentMessage l) None s (le_n _)) as Hadv.
  destruct (executeAgent _ _ _ _ _) as [[result|e] s1]; cbn in Hadv; cbn zeta;
    eexists _, _; (split; [reflexivity|]);
    by eapply (stamped_snoc n0 l s _ _ _ (nowCalls s1)).
Qed.

Lemma round_stamped n0 agentIds i todo l s :
  stamped E n0 l s ->
  exists l' s', round E agentIds i todo l s = (Return l', s') /\ stamped E n0 l' s'.
Proof.
  revert l s. induction todo as [|agentId todo IH]; intros l s Hl; cbn [round].
  - by eexists _, _.
  - rewrite bind_run.
    destruct (turn_stamped n0 agentIds i agentId l s Hl) as (l1 & s1 & -> & Hl1).
    by apply IH.
Qed.

Lemma rounds_stamped n0 agentIds n i l s :
  stamped E n0 l s ->
  exists l' s', rounds E agentIds n i l s = (Return l', s') /\ stamped E n0 l' s'.
Proof.
  revert i l s. induction n as [|n IH]; intros i l s Hl; cbn [rounds].
  - by eexists _, _.
  - rewrite bind_run.
    destruct (round_stamped n0 agentIds i agentIds l s Hl) as (l1 & s1 & -> & Hl1).
    by apply IH.
Qed.

(** X11.  When the clock never goes back, the timestamps of a run are in
    order: the start time is at most every record's timestamp, the
    timestamps do not decrease along the conversation, and the completion
    time is at least all of them. *)
Theorem timestamps_ordered agentIds goal iterations s :
  exists c s' t,
    collaborateAgents E agentIds goal iterations s = (Return c, s')
    /\ completed c = Some t
    /\ started c <= t
    /\ StronglySorted Z.le (map turn_timestamp (conversation c))
    /\ Forall (fun r => started c <= turn_timestamp r <= t) (conversation c).
Proof.
  unfold collaborateAgents, bind, uuidv4, Date_now, ret. cbn.
  match goal with |- context [rounds _ _ _ _ ?l0 ?s0] =>
    destruct (rounds_stamped (nowCalls s) agentIds (Z.to_nat iterations) 0 l0 s0)
      as (l' & s' & -> & Hn0 & Hsorted & Hall) end.
  { split; [cbn; lia|]. split; constructor. }
  eexists _, _, _. split; [reflexivity|]. cbn.
  split; [done|]. split; [apply monotone; lia|]. split; [done|].
  eapply Forall_impl; [exact Hall|]. intros r (k & Hk & ->).
  split; apply monotone; lia.
Qed.

End Stamps.

Lemma timestamps_ordered_witness :
  let E := Scenario.E_up in
  exists c s' t,
    collaborateAgents E Scenario.pair "plan" 2
      (Scenario.two_agents E "anthropic" (Scenario.openai_only E)).2 = (Return c, s')
    /\ completed c = Some t
    /\ StronglySorted Z.le (map turn_timestamp (conversation c)).
Proof.
  intros E.
  destruct (timestamps_ordered E) with
    (agentIds := Scenario.pair) (goal := "plan") (iterations := 2)
    (s := (Scenario.two_agents E "anthropic" (Scenario.openai_only E)).2)
    as (c & s' & t & Hrun & Hdone & _ & Hsorted & _).
  { intros i j Hij. unfold E, Scenario.E_up. cbn [env_now].
    destruct (i <? 6)%nat eqn:Hi, (j <? 6)%nat eqn:Hj; try lia.
    apply Nat.ltb_lt in Hj. apply Nat.ltb_ge in Hi. lia. }
  exists c, s', t. split; [exact Hrun|]. split; [exact Hdone | exact Hsorted].
Defined.

(** ** A reply without a message *)

(** X12.  [executeAgent] is not all-or-nothing once the provider call has
    returned: when the first choice of the reply has no message, the user
    message and an undefined entry are appended to the memory (and the
    memory trimmed) before the read of the content throws a TypeError.
    The call fails, the memory has changed, and [metrics.errors] does not
    count the failure. *)
Theorem executeAgent_throws_after_update E agentId message options s agent
    response s1 c cs :
  agents s !! agentId = Some agent ->
  callAPI E (ag_provider agent)
    ([Some {| msg_role := "system"; msg_content := ag_instructions agent |}]
     ++ ag_memory agent
     ++ [Some {| msg_role := "user"; msg_content := message |}])
    (ag_model agent) (default [] options) s = (Return response, s1) ->
  rj_choices response = Some (c :: cs) ->
  ch_message c = None ->
  let run := executeAgent E agentId message options s in
  run.1 = Throw (Error "Cannot read properties of undefined (reading 'content')")
  /\ (exists k,
        (k <= length (ag_memory agent))%nat
        /\ ag_memory <$> agents run.2 !! agentId
           = Some (drop k (ag_memory agent)
                   ++ [Some {| msg_role := "user"; msg_content := message |}; None]))
  /\ errors (metrics run.2) = errors (metrics s).
Proof.
  intros Hag Hcall Hchoices Hmessage. cbn zeta.
  pose proof (callAPI_errors E (ag_provider agent)
    ([Some {| msg_role := "system"; msg_content := ag_instructions agent |}]
     ++ ag_memory agent
     ++ [Some {| msg_role := "user"; msg_content := message |}])
    (ag_model agent) (default [] options) s) as Herr.
  rewrite executeAgent_run, Hag. cbn zeta in *. rewrite Hcall in *.
  rewrite Hchoices, Hmessage. cbn [fst snd] in *.
  split; [done|]. split; [|cbn; lia].
  destruct (push_and_limit_fifo (ag_memory agent) message None) as [Hk Hpush].
  unfold exchange_entries in Hpush. cbn [fst snd] in Hpush.
  eexists. split; [exact Hk|].
  cbn [agents set_agents]. by rewrite lookup_insert_eq, Hpush.
Qed.

Lemma executeAgent_throws_after_update_witness :
  let E := Cases.E_blank in
  let s := (createAgent E (Scenario.config_of "Ada" "openai")
              (Scenario.openai_only E)).2 in
  let run := executeAgent E "agent-0" "hello" None s in
  run.1 = Throw (Error "Cannot read properties of undefined (reading 'content')")
  /\ errors (metrics run.2) = errors (metrics s).
Proof.
  intros E s run.
  destruct (executeAgent_throws_after_update E "agent-0" "hello" None s
    {| ag_id := "agent-0"; ag_name := "Ada"; ag_role := "Assistant";
       ag_provider := "openai"; ag_model := "gpt-4";
       ag_instructions := "You are a helpful AI assistant."; ag_memory := [];
       ag_created := 1003 |}
    {| rj_choices := Some [ {| ch_message := None |} ]; rj_content := None;
       rj_usage := None |}
    (callAPI E "openai"
       [Some {| msg_role := "system"; msg_content := "You are a helpful AI assistant." |};
        Some {| msg_role := "user"; msg_content := "hello" |}] "gpt-4" [] s).2
    {| ch_message := None |} [] eq_refl eq_refl eq_refl eq_refl)
    as (Hthrow & _ & Herr).
  split; [exact Hthrow | exact Herr].
Defined.

(** ** The HTTP routes *)

Lemma requests_counted n : Respects (fun s => m_requests (metrics s) = n).
Proof. split; by intros. Qed.

(** X13.  The execute route answers 200 with the result when
    [executeAgent] returns, and 400 with the thrown error's message when
    it throws, an unknown id giving 400 "Agent not found" with the state
    untouched.  The collaborate route, on a body whose [agentIds] is an
    array, answers 200 with a completed run of one record per agent and
    iteration, failed turns being records of that run; it runs 3 iterations
    when the body gives none and none when the body gives [null].  On a
    body whose [agentIds] is missing or not iterable it answers 400
    "agentIds is not iterable" as soon as one iteration is to be run, having
    called no agent, and 200 with an empty run otherwise.  The create route
    always answers 200.  Behind the logging middleware each of these
    requests adds exactly one to [metrics.requests], whatever the route
    answers. *)
Theorem routes_answer E id message options agentIds goal iterations body s :
  (post_execute E id message options s
   = match executeAgent E id message options s with
     | (Return result, s') => (Return {| status := 200; payload := AgentExecuted result |}, s')
     | (Throw e, s') => (Return {| status := 400; payload := Failed (error_message e) |}, s')
     end)
  /\ (agents s !! id = None ->
        post_execute E id message options s
        = (Return {| status := 400; payload := Failed "Agent not found" |}, s))
  /\ (forall listed, agentIds = Some listed ->
        exists c s',
          post_collaborate E agentIds goal iterations s
          = (Return {| status := 200; payload := Collaborated c |}, s')
          /\ collaborateAgents E listed goal (iterations_of iterations) s = (Return c, s')
          /\ length (conversation c)
             = (length listed * Z.to_nat (iterations_of iterations))%nat
          /\ exists t, completed c = Some t)
  /\ (agentIds = None -> 0 < iterations_of iterations ->
        post_collaborate E agentIds goal iterations s
        = (Return {| status := 400; payload := Failed "agentIds is not iterable" |},
           tick (drawn s)))
  /\ (agentIds = None -> iterations_of iterations <= 0 ->
        post_collaborate E agentIds goal iterations s
        = (Return {| status := 200;
                     payload := CollaboratedUnlisted (env_uuid E (uuidCalls s)) goal
                                  (env_now E (nowCalls s))
                                  (env_now E (S (nowCalls s))) |},
           tick (tick (drawn s))))
  /\ (iterations_of NoIterations = 3 /\ iterations_of NullIterations = 0
      /\ forall n, iterations_of (NumberOfIterations n) = n)
  /\ (exists agent s',
        post_agents E body s
        = (Return {| status := 200; payload := AgentCreated agent |}, s')
        /\ agents s' !! ag_id agent = Some agent)
  /\ m_requests (metrics (logged (post_execute E id message options) s).2)
     = m_requests (metrics s) + 1
  /\ m_requests (metrics (logged (post_collaborate E agentIds goal iterations) s).2)
     = m_requests (metrics s) + 1.
Proof.
  assert (Hexec : post_execute E id message options s
   = match executeAgent E id message options s with
     | (Return result, s') => (Return {| status := 200; payload := AgentExecuted result |}, s')
     | (Throw e, s') => (Return {| status := 400; payload := Failed (error_message e) |}, s')
     end).
  { unfold post_execute, try_catch. rewrite bind_run.
    by destruct (executeAgent _ _ _ _ _) as [[result|e] s']. }
  split; [done|]. split.
  { intros Hid. by rewrite Hexec, executeAgent_not_found. }
  split.
  { intros listed ->.
    destruct (collaborateAgents_run E listed goal (iterations_of iterations) s)
      as (c & s' & Hrun & _ & _ & Hit & Hdone).
    exists c, s'. unfold post_collaborate, try_catch. rewrite bind_run, Hrun.
    split; [done|]. split; [done|]. split; [|by eexists].
    by rewrite <- (length_map turn_iteration), Hit, round_numbers_length. }
  split.
  { intros -> Hpos%Z.ltb_lt. unfold post_collaborate, try_catch.
    rewrite !bind_run. cbn. by rewrite Hpos. }
  split.
  { intros -> Hnone%Z.ltb_ge. unfold post_collaborate, try_catch.
    rewrite !bind_run. cbn. by rewrite Hnone. }
  split; [done|].
  split.
  { eexists _, _. unfold post_agents, try_catch. rewrite bind_run, createAgent_run.
    split; [reflexivity|]. cbn. apply lookup_insert_eq. }
  split.
  - apply (keeps_try_catch (fun s' => m_requests (metrics s') = m_requests (metrics s) + 1)).
    + apply keeps_bind; [apply keeps_executeAgent, requests_counted|].
      intros result. by intros s' Hs'.
    + intros e. by intros s' Hs'.
    + done.
  - apply (keeps_try_catch (fun s' => m_requests (metrics s') = m_requests (metrics s) + 1)).
    + destruct agentIds as [listed|].
      * apply keeps_bind; [apply keeps_collaborateAgents, requests_counted|].
        intros result. by intros s' Hs'.
      * apply keeps_bind; [apply keeps_uuidv4, requests_counted|]. intros uuid.
        apply keeps_bind; [apply keeps_Date_now, requests_counted|]. intros t0.
        destruct (0 <? iterations_of iterations); [by intros s' Hs'|].
        apply keeps_bind; [apply keeps_Date_now, requests_counted|]. intros t1.
        by intros s' Hs'.
    + intros e. by intros s' Hs'.
    + done.
Qed.

Lemma routes_answer_witness :
  let E := Scenario.E_up in
  post_collaborate E None "plan" NoIterations (Scenario.openai_only E)
  = (Return {| status := 400; payload := Failed "agentIds is not iterable" |},
     tick (drawn (Scenario.openai_only E))).
Proof.
  intros E.
  destruct (routes_answer E "nobody" "hello" None None "plan" NoIterations
              (Scenario.config_of "Ada" "openai") (Scenario.openai_only E))
    as (_ & _ & _ & H & _).
  apply H; reflexivity.
Defined.

(** ** The WebSocket channel *)

(** The handler of inbound messages passes the process state through steps
    of the client and the orchestrator only. *)
Lemma on_message_proc E (I : Proc -> Prop) sessionId data v :
  Respects I -> I (proc v) -> I (proc (on_message E sessionId data v).2).
Proof.
  intros HI Hv.
  pose proof (respects_tick I HI _ Hv) as Hv1.
  unfold on_message, wtry, wbind, lift, set_sessions, ws_send, wthrow.
  cbn -[executeAgent collaborateAgents].
  destruct data as [error|[|agentId message options requestId
                            |agentIds goal iterations requestId|]];
    cbn -[executeAgent collaborateAgents].
  - exact (respects_tick I HI _ Hv1).
  - exact (respects_tick I HI _ Hv1).
  - pose proof (keeps_executeAgent E I HI agentId message options _ Hv1) as Hx.
    unfold tick in Hx.
    destruct (executeAgent _ _ _ _ _) as [[result|e] s1]; cbn in *;
      exact (respects_tick I HI _ Hx).
  - pose proof (keeps_collaborateAgents E I HI agentIds goal
                  (iterations_or_3 iterations) _ Hv1) as Hx.
    unfold tick in Hx.
    destruct (collaborateAgents _ _ _ _ _) as [[c|e] s1]; cbn in *;
      exact (respects_tick I HI _ Hx).
  - exact (respects_tick I HI _ Hv1).
Qed.

(** The handler of inbound messages in one statement. *)
Lemma on_message_run E sessionId data v :
  exists event v',
    on_message E sessionId data v = (Return tt, v')
    /\ outbox v' = outbox v ++ [(sessionId, event)]
    /\ sessions v'
       = alter (touch (env_now E (nowCalls (proc v)))) sessionId (sessions v)
    /\ dom (sessions v') = dom (sessions v)
    /\ terminated v' = terminated v
    /\ match data with
       | inl error => exists t, event = ErrorEvent (error_message error) t
       | inr Ping => exists t, event = Pong t
       | inr OtherType => exists t, event = ErrorEvent "Unknown message type" t
       | inr (ExecuteAgent agentId message options requestId) =>
           match (executeAgent E agentId message options (tick (proc v))).1 with
           | Return result => exists t, event = AgentResponse requestId result t
           | Throw e => exists t, event = ErrorEvent (error_message e) t
           end
       | inr (StartCollaboration agentIds goal iterations requestId) =>
           exists c t,
             event = CollaborationResult requestId c t
             /\ length (conversation c)
                = (length agentIds * Z.to_nat (iterations_or_3 iterations))%nat
       end.
Proof.
  unfold on_message, wtry, wbind, lift, set_sessions, ws_send, wthrow.
  cbn -[executeAgent collaborateAgents].
  change ({| openaiKey := openaiKey (proc v); anthropicKey := anthropicKey (proc v);
             rateLimits := rateLimits (proc v); metrics := metrics (proc v);
             agents := agents (proc v); nowCalls := S (nowCalls (proc v));
             uuidCalls := uuidCalls (proc v); sent := sent (proc v) |})
    with (tick (proc v)).
  destruct data as [error|[|agentId message options requestId
                            |agentIds goal iterations requestId|]];
    cbn -[executeAgent collaborateAgents].
  - eexists _, _. split; [reflexivity|]. cbn.
    rewrite dom_alter_L. repeat split; eauto.
  - eexists _, _. split; [reflexivity|]. cbn.
    rewrite dom_alter_L. repeat split; eauto.
  - destruct (executeAgent _ _ _ _ _) as [[result|e] s1]; cbn;
      eexists _, _; (split; [reflexivity|]); cbn;
      rewrite dom_alter_L; repeat split; eauto.
  - destruct (collaborateAgents_run E agentIds goal (iterations_or_3 iterations)
                (tick (proc v))) as (c & s' & Hrun & _ & _ & Hit & _).
    rewrite Hrun. cbn -[executeAgent collaborateAgents].
    eexists _, _. split; [reflexivity|]. cbn.
    rewrite dom_alter_L. repeat split; eauto.
    eexists _, _. split; [reflexivity|].
    by rewrite <- (length_map turn_iteration), Hit, round_numbers_length.
  - eexists _, _. split; [reflexivity|]. cbn.
    rewrite dom_alter_L. repeat split; eauto.
Qed.


Lemma session_metrics_kept a t :
  Respects (fun s => activeSessions (metrics s) = a /\ totalSessions (metrics s) = t).
Proof. split; by intros. Qed.

(** X15.  [metrics.activeSessions] is the number of open sessions after
    every event of the channel: it is so at the start, a connection, a
    close, a socket error and a cleanup make it so, and a message keeps it
    so.  [metrics.totalSessions] counts the connections: a connection adds
    one, nothing else changes it. *)
Theorem session_counters E :
  (forall openai_key anthropic_key openai_limit anthropic_limit,
     sessions_counted (boot E openai_key anthropic_key openai_limit anthropic_limit))
  /\ (forall ip v,
        sessions_counted (on_connection E ip v).2
        /\ totalSessions (metrics (proc (on_connection E ip v).2))
           = totalSessions (metrics (proc v)) + 1)
  /\ (forall sessionId v,
        sessions_counted (on_close sessionId v).2
        /\ sessions_counted (on_error sessionId v).2
        /\ totalSessions (metrics (proc (on_close sessionId v).2))
           = totalSessions (metrics (proc v)))
  /\ (forall v,
        sessions_counted (cleanup E v).2
        /\ totalSessions (metrics (proc (cleanup E v).2))
           = totalSessions (metrics (proc v)))
  /\ (forall sessionId data v,
        sessions_counted v ->
        sessions_counted (on_message E sessionId data v).2
        /\ totalSessions (metrics (proc (on_message E sessionId data v).2))
           = totalSessions (metrics (proc v))).
Proof.
  split; [done|]. split; [done|]. split; [done|]. split; [done|].
  intros sessionId data v Hv.
  destruct (on_message_proc E _ sessionId data v
              (session_metrics_kept (activeSessions (metrics (proc v)))
                 (totalSessions (metrics (proc v)))) (conj eq_refl eq_refl))
    as [Ha Ht].
  split; [|done]. unfold sessions_counted. rewrite Ha, Hv.
  destruct (on_message_run E sessionId data v)
    as (event & v' & -> & _ & _ & Hdom & _).
  cbn. by rewrite <- !size_dom, Hdom.
Qed.

Lemma session_counters_witness :
  let E := Scenario.E_up in
  sessions_counted
    (on_message E "agent-0" (inr Ping)
       (on_connection E "127.0.0.1" (boot E (Some "sk-test") None None None)).2).2.
Proof.
  intros E.
  destruct (session_counters E) as (_ & Hconn & _ & _ & Hmsg).
  exact (proj1 (Hmsg "agent-0" (inr Ping) _
                  (proj1 (Hconn "127.0.0.1" (boot E (Some "sk-test") None None None))))).
Defined.

(** X16.  The cleanup keeps exactly the sessions whose last activity is at
    most 30 minutes (1800000 ms) before the time it reads, terminates the
    sockets of exactly the others, sends nothing, and leaves the sessions
    it keeps as they are. *)
Theorem cleanup_removes_idle E v :
  let now := env_now E (nowCalls (proc v)) in
  let v' := (cleanup E v).2 in
  (forall id x,
     sessions v' !! id = Some x
     <-> sessions v !! id = Some x /\ now - ses_lastActivity x <= 1800000)
  /\ (forall id,
        id ∈ terminated v'
        <-> id ∈ terminated v
            \/ exists x, sessions v !! id = Some x /\ 1800000 < now - ses_lastActivity x)
  /\ outbox v' = outbox v.
Proof.
  cbn zeta. unfold cleanup, wbind, lift, count_sessions. cbn.
  split; [|split; [|done]].
  - intros id x. rewrite map_lookup_filter_Some. cbn. split.
    + intros [Hx Hidle]. split; [done|]. lia.
    + intros [Hx Hidle]. split; [done|]. lia.
  - intros id. rewrite elem_of_union, elem_of_dom. unfold is_Some.
    setoid_rewrite map_lookup_filter_Some. cbn. naive_solver.
Qed.

Lemma wbind_run {A B} (m : W A) (k : A -> W B) v :
  wbind m k v = match m v with
                | (Return a, v') => k a v'
                | (Throw e, v') => (Throw e, v')
                end.
Proof. reflexivity. Qed.

(** [on_connection] in one equation. *)
Lemma on_connection_run E ip v :
  let id := env_uuid E (uuidCalls (proc v)) in
  let n := nowCalls (proc v) in
  let registered :=
    <[id := {| ses_id := id; ses_ip := ip; ses_created := env_now E n;
               ses_lastActivity := env_now E (S n) |}]> (sessions v) in
  on_connection E ip v =
    (Return tt,
     {| proc :=
          tick (set_metrics incr_totalSessions
                  (set_metrics (with_activeSessions (Z.of_nat (size registered)))
                     (tick (tick (drawn (proc v))))));
        sessions := registered;
        outbox := outbox v ++ [(id, Connected id (env_now E (S (S n))))];
        terminated := terminated v |}).
Proof. reflexivity. Qed.

(** X17.  A connection draws a fresh session id, registers the session
    under it with the caller's address and the times read from the clock,
    and greets the socket with that id.  Closing it again removes it: when
    the id was not in use, the sessions are as before the connection. *)
Theorem connection_round_trip E ip v :
  let id := env_uuid E (uuidCalls (proc v)) in
  let n := nowCalls (proc v) in
  let v1 := (on_connection E ip v).2 in
  sessions v1 !! id
  = Some {| ses_id := id; ses_ip := ip; ses_created := env_now E n;
            ses_lastActivity := env_now E (S n) |}
  /\ (forall id', id' <> id -> sessions v1 !! id' = sessions v !! id')
  /\ outbox v1 = outbox v ++ [(id, Connected id (env_now E (S (S n))))]
  /\ sessions (on_close id v1).2 !! id = None
  /\ (sessions v !! id = None -> sessions (on_close id v1).2 = sessions v).
Proof.
  cbn zeta. rewrite on_connection_run. cbn [snd sessions outbox].
  split; [apply lookup_insert_eq|].
  split; [intros id' Hid; by apply lookup_insert_ne|].
  split; [done|].
  unfold on_close, wbind, set_sessions, count_sessions. cbn [fst snd sessions].
  split; [apply lookup_delete_eq|].
  intros Hfree. by apply delete_insert_id.
Qed.

Lemma connection_round_trip_witness :
  let E := Scenario.E_up in
  let v := boot E (Some "sk-test") None None None in
  sessions (on_close "agent-0" (on_connection E "127.0.0.1" v).2).2 = sessions v.
Proof.
  intros E v.
  destruct (connection_round_trip E "127.0.0.1" v) as (_ & _ & _ & _ & H).
  apply H. reflexivity.
Defined.

(** X18.  An iteration count of 0 is not the same request on the two
    doors: the collaborate route runs no iteration and answers an empty
    completed run, while [start_collaboration] on the channel replaces the
    0, like an absent count, by 3 and sends a run of 3 records per
    agent. *)
Theorem zero_iterations E agentIds goal requestId sessionId s v :
  (exists c s',
     post_collaborate E (Some agentIds) goal (NumberOfIterations 0) s
     = (Return {| status := 200; payload := Collaborated c |}, s')
     /\ conversation c = []
     /\ sent s' = sent s /\ agents s' = agents s)
  /\ (forall iterations, iterations = Some 0 \/ iterations = None ->
      exists c t v',
        on_message E sessionId
          (inr (StartCollaboration agentIds goal iterations requestId)) v
        = (Return tt, v')
        /\ outbox v' = outbox v ++ [(sessionId, CollaborationResult requestId c t)]
        /\ length (conversation c) = (length agentIds * 3)%nat).
Proof.
  split.
  - unfold post_collaborate, try_catch, collaborateAgents, bind, uuidv4, Date_now, ret.
    cbn. by eexists _, _.
  - intros iterations Hit.
    destruct (on_message_run E sessionId
                (inr (StartCollaboration agentIds goal iterations requestId)) v)
      as (event & v' & Hrun & Hout & _ & _ & _ & c & t & -> & Hlen).
    exists c, t, v'. split; [done|]. split; [done|].
    rewrite Hlen. by destruct Hit as [-> | ->].
Qed.

Lemma zero_iterations_witness :
  let E := Scenario.E_up in
  exists c t v',
    on_message E "agent-9" (inr (StartCollaboration Scenario.pair "plan" (Some 0) None))
      (boot E (Some "sk-test") None None None)
    = (Return tt, v')
    /\ outbox v' = [("agent-9", CollaborationResult None c t)]
    /\ length (conversation c) = 6%nat.
Proof.
  intros E.
  destruct (zero_iterations E Scenario.pair "plan" None "agent-9"
              (Scenario.openai_only E) (boot E (Some "sk-test") None None None))
    as [_ H].
  destruct (H (Some 0) (or_introl eq_refl)) as (c & t & v' & Hrun & Hout & Hlen).
  exists c, t, v'. split; [exact Hrun|]. split; [exact Hout | exact Hlen].
Defined.
